(** * The VLC audio backend of mycroft-core

    A shallow embedding of [mycroft/audio/services/vlc/__init__.py]: the class
    [VlcService], which adapts the python-vlc binding to the audio backend
    interface, and the properties its description states about volume
    ducking, seeking, stopping, queueing and the event relay.

    The file has three parts:
    - [vlc]: a synchronous reference model of the part of the python-vlc
      binding the service calls (the binding itself is a third-party library
      and not part of the repository);
    - the service: its fields as a record, its methods as computations in a
      small monad that threads the object, collects the calls made and
      carries Python exceptions;
    - the properties. *)

From stdpp Require Import base option list gmap strings.
From Stdlib Require Import ZArith Lia.

Local Open Scope Z_scope.

(** ** The media engine *)

Module vlc.

(** [vlc.State], the values the service can observe. *)
Inductive State := NothingSpecial | Playing | Paused | Stopped | Ended.

(** [vlc.PlaybackMode]; the service uses [default] and [loop]. *)
Module PlaybackMode.
Inductive t := default | loop.
End PlaybackMode.

(** [vlc.Meta], the three keys [track_info] reads. *)
Inductive Meta := Title | Artist | Album.

(** A media object: its locator and the metadata the engine has parsed so
    far (libvlc answers [None] for a key it has not parsed). *)
Record Media := {
  mrl : string;
  title : option string;
  artist : option string;
  album : option string;
}.

Definition get_meta (t : Media) (k : Meta) : option string :=
  match k with
  | Title => title t
  | Artist => artist t
  | Album => album t
  end.

Record MediaPlayer := {
  state : State;
  audio_volume : Z;
  time : Z;
  duration : Z;
  media : option Media;
}.

Record MediaListPlayer := {
  playback_mode : PlaybackMode.t;
  media_list : option nat;
  index : option nat;
}.

(** One [vlc.Instance] with everything created from it. Media lists are
    objects shared by reference (the service and the list player hold the
    same list), so they live in a store and are named by their address. *)
Record Instance := {
  lists : gmap nat (list Media);
  next_list : nat;
  player : MediaPlayer;
  list_player : MediaListPlayer;
}.

Definition with_player (f : MediaPlayer → MediaPlayer) (i : Instance) : Instance :=
  {| lists := lists i; next_list := next_list i;
     player := f (player i); list_player := list_player i |}.

Definition with_list_player (f : MediaListPlayer → MediaListPlayer)
    (i : Instance) : Instance :=
  {| lists := lists i; next_list := next_list i;
     player := player i; list_player := f (list_player i) |}.

(** [vlc.Instance()], with [media_list_player_new], [media_player_new] and
    [set_media_player] already done: a player with nothing loaded at the
    nominal volume, a list player with no list. *)
Definition new : Instance :=
  {| lists := ∅; next_list := 0%nat;
     player := {| state := NothingSpecial; audio_volume := 100;
                  time := -1; duration := -1; media := None |};
     list_player := {| playback_mode := PlaybackMode.default; media_list := None;
                       index := None |} |}.

(** *** Media player *)

Definition is_playing (i : Instance) : bool :=
  match state (player i) with Playing => true | _ => false end.

Definition audio_get_volume (i : Instance) : Z := audio_volume (player i).

(** libvlc refuses a negative level ("volume out of range", result -1) and
    leaves the output as it is. *)
Definition audio_set_volume (v : Z) (i : Instance) : Instance :=
  if v <? 0 then i
  else with_player (λ p, {| state := state p; audio_volume := v; time := time p;
                            duration := duration p; media := media p |}) i.

(** [set_pause(do_pause)]: pauses a playing player when [do_pause] is not 0,
    resumes a paused one when it is 0, and does nothing in any other
    state. *)
Definition set_pause (do_pause : Z) (i : Instance) : Instance :=
  with_player (λ p,
    match state p, do_pause =? 0 with
    | Playing, false =>
        {| state := Paused; audio_volume := audio_volume p; time := time p;
           duration := duration p; media := media p |}
    | Paused, true =>
        {| state := Playing; audio_volume := audio_volume p; time := time p;
           duration := duration p; media := media p |}
    | _, _ => p
    end) i.

Definition get_time (i : Instance) : Z := time (player i).
Definition get_length (i : Instance) : Z := duration (player i).

Definition set_time (t : Z) (i : Instance) : Instance :=
  with_player (λ p, {| state := state p; audio_volume := audio_volume p; time := t;
                       duration := duration p; media := media p |}) i.

Definition get_media (i : Instance) : option Media := media (player i).

(** *** Media and media lists *)

Definition media_new (t : string) : Media :=
  {| mrl := t; title := None; artist := None; album := None |}.

Definition media_list_new (i : Instance) : nat * Instance :=
  (next_list i,
   {| lists := <[next_list i := []]> (lists i); next_list := S (next_list i);
      player := player i; list_player := list_player i |}).

Definition items (l : nat) (i : Instance) : list Media :=
  default [] (lists i !! l).

Definition add_media (l : nat) (m : Media) (i : Instance) : Instance :=
  {| lists := <[l := items l i ++ [m]]> (lists i); next_list := next_list i;
     player := player i; list_player := list_player i |}.

(** *** Media list player *)

Definition set_media_list (l : nat) (i : Instance) : Instance :=
  with_list_player (λ lp, {| playback_mode := playback_mode lp;
                             media_list := Some l; index := None |}) i.

Definition set_playback_mode (m : PlaybackMode.t) (i : Instance) : Instance :=
  with_list_player (λ lp, {| playback_mode := m; media_list := media_list lp;
                             index := index lp |}) i.

Definition queue (i : Instance) : list Media :=
  match media_list (list_player i) with
  | Some l => items l i
  | None => []
  end.

(** Load item [n] of the installed list and start it; nothing happens when
    the list has no such item. *)
Definition play_item (n : nat) (i : Instance) : Instance :=
  match queue i !! n with
  | Some m =>
      {| lists := lists i; next_list := next_list i;
         player := {| state := Playing; audio_volume := audio_volume (player i);
                      time := 0; duration := -1; media := Some m |};
         list_player := {| playback_mode := playback_mode (list_player i);
                           media_list := media_list (list_player i);
                           index := Some n |} |}
  | None => i
  end.

Definition play (i : Instance) : Instance :=
  match state (player i), index (list_player i) with
  | Paused, Some _ => set_pause 0 i
  | _, Some n => play_item n i
  | _, None => play_item 0 i
  end.

Definition stop (i : Instance) : Instance :=
  with_player (λ p, {| state := Stopped; audio_volume := audio_volume p;
                       time := -1; duration := duration p; media := media p |}) i.

Definition next (i : Instance) : Instance :=
  let n := match index (list_player i) with Some n => S n | None => 0%nat end in
  match queue i !! n, playback_mode (list_player i) with
  | Some _, _ => play_item n i
  | None, PlaybackMode.loop => play_item 0 i
  | None, PlaybackMode.default => i
  end.

Definition previous (i : Instance) : Instance :=
  match index (list_player i), playback_mode (list_player i) with
  | Some (S n), _ => play_item n i
  | _, PlaybackMode.loop => play_item (Nat.pred (List.length (queue i))) i
  | _, PlaybackMode.default => i
  end.

(** The calls of the binding, as the service makes them. *)
Inductive call :=
| c_is_playing
| c_audio_get_volume
| c_audio_set_volume (v : Z)
| c_set_pause (do_pause : Z)
| c_get_time
| c_get_length
| c_set_time (t : Z)
| c_get_media
| c_get_meta (k : Meta)
| c_media_new (t : string)
| c_media_list_new
| c_add_media (l : nat) (t : string)
| c_set_media_list (l : nat)
| c_set_playback_mode (m : PlaybackMode.t)
| c_play
| c_stop
| c_next
| c_previous.

End vlc.

(** ** The service object *)

(** The configuration mapping of one backend entry, restricted to the keys
    the service reads; a key that is absent is [None]. *)
Record Config := {
  cfg_volume : option Z;
  cfg_low_volume : option Z;
  cfg_duck : option bool;
}.

(** [config.get(key, fallback)] *)
Definition get {A} (entry : option A) (fallback : A) : A := default fallback entry.

(** The fields of a [VlcService]. [player], [list_player] and the media
    lists are objects of [instance]; [track_list] is the address of the list
    the service currently adds to. A registered callback is a host function,
    kept as an opaque handle. *)
Record VlcService := {
  instance : vlc.Instance;
  track_list : nat;
  config : Config;
  name : string;
  normal_volume : option Z;
  low_volume : Z;
  initial_volume : Z;
  volume : Z;
  _track_start_callback : option nat;
}.

Definition set_instance (i : vlc.Instance) (s : VlcService) : VlcService :=
  {| instance := i; track_list := track_list s; config := config s; name := name s;
     normal_volume := normal_volume s; low_volume := low_volume s;
     initial_volume := initial_volume s; volume := volume s;
     _track_start_callback := _track_start_callback s |}.

Definition set_track_list (l : nat) (s : VlcService) : VlcService :=
  {| instance := instance s; track_list := l; config := config s; name := name s;
     normal_volume := normal_volume s; low_volume := low_volume s;
     initial_volume := initial_volume s; volume := volume s;
     _track_start_callback := _track_start_callback s |}.

Definition set_normal_volume (v : option Z) (s : VlcService) : VlcService :=
  {| instance := instance s; track_list := track_list s; config := config s;
     name := name s; normal_volume := v; low_volume := low_volume s;
     initial_volume := initial_volume s; volume := volume s;
     _track_start_callback := _track_start_callback s |}.

(** Modelled from the spec: [set_track_start_callback] of the base class
    [AudioBackend], which is not among the sources. The description has one
    optional registered callback, set by the host; registering stores the
    function given (here also [None], to clear it). *)
Definition set_track_start_callback (f : option nat) (s : VlcService) : VlcService :=
  {| instance := instance s; track_list := track_list s; config := config s;
     name := name s; normal_volume := normal_volume s; low_volume := low_volume s;
     initial_volume := initial_volume s; volume := volume s;
     _track_start_callback := f |}.

(** [__init__(config, bus, name)]. The bus is used once, for the
    [mycroft.volume.get] request: [vol_msg] is its reply, already converted
    ([int(percent * 100)]), or [None] when no reply came. The base class
    constructor leaves no callback registered. *)
Definition __init__ (config : Config) (vol_msg : option Z) (name : string) : VlcService :=
  let instance := vlc.new in
  let '(track_list, instance) := vlc.media_list_new instance in
  let instance := vlc.set_media_list track_list instance in
  let low_volume := get (cfg_low_volume config) 30 in
  let initial_volume := match vol_msg with Some percent => percent | None => 50 end in
  {| instance := instance; track_list := track_list; config := config; name := name;
     normal_volume := None; low_volume := low_volume;
     initial_volume := initial_volume;
     volume := get (cfg_volume config) initial_volume;
     _track_start_callback := None |}.

(** ** Running a method *)

Inductive method :=
| m_track_start | m_queue_ended | m_supported_uris | m_clear_list | m_add_list
| m_play | m_stop | m_pause | m_resume | m_next | m_previous
| m_lower_volume | m_restore_volume | m_track_info
| m_seek_forward | m_seek_backward.

(** What a run does, in order: the methods of the service it enters, the
    calls it makes to the engine, the invocations of the host callback. *)
Inductive event :=
| Enter (m : method)
| Vlc (c : vlc.call)
| Callback (f : nat) (arg : option string).

Inductive exn := IndexError | AttributeError.

(** The outcome of a run: the value returned or the exception raised, the
    object afterwards (an exception does not undo what was done before it),
    and the events in the order they happened. *)
Record outcome (A : Type) := Outcome {
  result : exn + A;
  self : VlcService;
  trace : list event;
}.
Arguments Outcome {A} _ _ _.
Arguments result {A} _.
Arguments self {A} _.
Arguments trace {A} _.

Definition M (A : Type) : Type := VlcService → outcome A.

Definition ret {A} (a : A) : M A := λ s, Outcome (inr a) s [].

Definition bind {A B} (m : M A) (f : A → M B) : M B := λ s,
  match m s with
  | Outcome (inl e) s' tr => Outcome (inl e) s' tr
  | Outcome (inr a) s' tr =>
      match f a s' with
      | Outcome r s'' tr' => Outcome r s'' (tr ++ tr')
      end
  end.

Declare Scope M_scope.
Delimit Scope M_scope with M.
Notation "x ← y ; z" := (bind y (λ x, z))
  (at level 20, y at level 100, z at level 200, only parsing) : M_scope.
Notation "x ;; z" := (bind x (λ _, z))
  (at level 100, z at level 200, only parsing, right associativity) : M_scope.
Local Open Scope M_scope.

Definition gets {A} (f : VlcService → A) : M A := λ s, Outcome (inr (f s)) s [].
Definition modify (f : VlcService → VlcService) : M unit := λ s, Outcome (inr ()) (f s) [].
Definition emit (e : event) : M unit := λ s, Outcome (inr ()) s [e].
Definition raise {A} (e : exn) : M A := λ s, Outcome (inl e) s [].

Definition enter (m : method) : M unit := emit (Enter m).

(** A call that only asks the engine, and one that acts on it. *)
Definition ask {A} (c : vlc.call) (f : vlc.Instance → A) : M A :=
  emit (Vlc c);; gets (λ s, f (instance s)).
Definition act (c : vlc.call) (f : vlc.Instance → vlc.Instance) : M unit :=
  emit (Vlc c);; modify (λ s, set_instance (f (instance s)) s).

(** The binding, as the service reaches it through [self.player],
    [self.list_player], [self.instance] and [self.track_list]. *)
Module player.
Definition is_playing : M bool := ask vlc.c_is_playing vlc.is_playing.
Definition audio_get_volume : M Z := ask vlc.c_audio_get_volume vlc.audio_get_volume.
Definition audio_set_volume (v : Z) : M unit :=
  act (vlc.c_audio_set_volume v) (vlc.audio_set_volume v).
Definition set_pause (do_pause : Z) : M unit :=
  act (vlc.c_set_pause do_pause) (vlc.set_pause do_pause).
Definition get_time : M Z := ask vlc.c_get_time vlc.get_time.
Definition get_length : M Z := ask vlc.c_get_length vlc.get_length.
Definition set_time (t : Z) : M unit := act (vlc.c_set_time t) (vlc.set_time t).
Definition get_media : M (option vlc.Media) := ask vlc.c_get_media vlc.get_media.
End player.

Module list_player.
Definition set_media_list (l : nat) : M unit :=
  act (vlc.c_set_media_list l) (vlc.set_media_list l).
Definition set_playback_mode (m : vlc.PlaybackMode.t) : M unit :=
  act (vlc.c_set_playback_mode m) (vlc.set_playback_mode m).
Definition play : M unit := act vlc.c_play vlc.play.
Definition stop : M unit := act vlc.c_stop vlc.stop.
Definition next : M unit := act vlc.c_next vlc.next.
Definition previous : M unit := act vlc.c_previous vlc.previous.
End list_player.

Definition media_list_new : M nat :=
  emit (Vlc vlc.c_media_list_new);;
  l ← gets (λ s, fst (vlc.media_list_new (instance s)));
  modify (λ s, set_instance (snd (vlc.media_list_new (instance s))) s);;
  ret l.

Definition media_new (t : string) : M vlc.Media :=
  emit (Vlc (vlc.c_media_new t));; ret (vlc.media_new t).

Definition add_media (l : nat) (m : vlc.Media) : M unit :=
  act (vlc.c_add_media l (vlc.mrl m)) (vlc.add_media l m).

Definition media_get_meta (t : vlc.Media) (k : vlc.Meta) : M (option string) :=
  emit (Vlc (vlc.c_get_meta k));; ret (vlc.get_meta t k).

(** Calling the registered host function. *)
Definition invoke (f : nat) (arg : option string) : M unit := emit (Callback f arg).

(** ** The methods of [VlcService] *)

(** What [track_info] returns. *)
Record TrackInfo := {
  info_album : option string;
  info_artists : list (option string);
  info_name : option string;
}.

(** An entry of the sequence given to [add_list]: a locator, or a Python
    list (a locator followed by, say, its MIME type). *)
Inductive track :=
| t_str (uri : string)
| t_list (l : list string).

Definition track_info : M TrackInfo :=
  enter m_track_info;;
  t ← player.get_media;
  match t with
  | None => raise AttributeError
  | Some t =>
      album ← media_get_meta t vlc.Album;
      artist ← media_get_meta t vlc.Artist;
      title ← media_get_meta t vlc.Title;
      ret {| info_album := album; info_artists := [artist]; info_name := title |}
  end.

Definition track_start : M unit :=
  enter m_track_start;;
  cb ← gets _track_start_callback;
  match cb with
  | Some f => info ← track_info; invoke f (info_name info)
  | None => ret ()
  end.

Definition queue_ended : M unit :=
  enter m_queue_ended;;
  cb ← gets _track_start_callback;
  match cb with
  | Some f => invoke f None
  | None => ret ()
  end.

Definition supported_uris : M (list string) :=
  enter m_supported_uris;;
  ret ["file"; "http"; "https"]%string.

Definition clear_list : M unit :=
  enter m_clear_list;;
  l ← media_list_new;
  modify (set_track_list l);;
  l ← gets track_list;
  list_player.set_media_list l.

(** The body of the loop of [add_list], for one entry [t]. *)
Definition add_track (t : track) : M unit :=
  t ← match t with
      | t_list l =>
          match l with
          | t0 :: _ => ret t0
          | [] => raise IndexError
          end
      | t_str uri => ret uri
      end;
  m ← media_new t;
  l ← gets track_list;
  add_media l m.

Fixpoint for_each {A} (body : A → M unit) (xs : list A) : M unit :=
  match xs with
  | [] => ret ()
  | x :: xs => body x;; for_each body xs
  end.

Definition add_list (tracks : list track) : M unit :=
  enter m_add_list;;
  for_each add_track tracks.

Definition play (repeat : bool) : M unit :=
  enter m_play;;
  (if repeat
   then list_player.set_playback_mode vlc.PlaybackMode.loop
   else list_player.set_playback_mode vlc.PlaybackMode.default);;
  list_player.play;;
  v ← gets volume;
  player.audio_set_volume v.

Definition pause : M unit :=
  enter m_pause;;
  player.set_pause 1.

Definition resume : M unit :=
  enter m_resume;;
  player.set_pause 0.

Definition next : M unit :=
  enter m_next;;
  list_player.next.

Definition previous : M unit :=
  enter m_previous;;
  list_player.previous.

Definition lower_volume : M unit :=
  enter m_lower_volume;;
  nv ← gets normal_volume;
  match nv with
  | None =>
      playing ← player.is_playing;
      if playing then
        duck ← gets (λ s, get (cfg_duck (config s)) false);
        if duck then
          v ← player.audio_get_volume;
          modify (set_normal_volume (Some v));;
          low ← gets low_volume;
          if v <? low then pause
          else player.audio_set_volume low
        else ret ()
      else ret ()
  | Some _ => ret ()
  end.

(** Python's truth value of [self.normal_volume]: [None] and [0] are false. *)
Definition truthy (nv : option Z) : bool :=
  match nv with
  | Some v => negb (v =? 0)
  | None => false
  end.

Definition restore_volume : M unit :=
  enter m_restore_volume;;
  nv ← gets normal_volume;
  low ← gets low_volume;
  match nv with
  | Some v =>
      if truthy nv && (v >? low) then
        player.audio_set_volume v;;
        modify (set_normal_volume None)
      else
        modify (set_normal_volume None);;
        resume
  | None =>
      modify (set_normal_volume None);;
      resume
  end.

Definition stop : M bool :=
  enter m_stop;;
  playing ← player.is_playing;
  if playing then
    restore_volume;;
    clear_list;;
    list_player.stop;;
    ret true
  else ret false.

Definition seek_forward (seconds : Z) : M unit :=
  enter m_seek_forward;;
  let seconds := seconds * 1000 in
  t ← player.get_time;
  let new_time := t + seconds in
  duration ← player.get_length;
  let new_time := if new_time >? duration then duration else new_time in
  player.set_time new_time.

Definition seek_backward (seconds : Z) : M unit :=
  enter m_seek_backward;;
  let seconds := seconds * 1000 in
  t ← player.get_time;
  let new_time := t - seconds in
  let new_time := if new_time <? 0 then 0 else new_time in
  player.set_time new_time.

(** ** Histories *)

(** The operations a host performs on the service: the methods of the
    backend interface, and the two handlers the constructor attaches to the
    engine's events. *)
Inductive op :=
| o_supported_uris
| o_clear_list
| o_add_list (tracks : list track)
| o_play (repeat : bool)
| o_stop
| o_pause
| o_resume
| o_next
| o_previous
| o_lower_volume
| o_restore_volume
| o_track_info
| o_seek_forward (seconds : Z)
| o_seek_backward (seconds : Z)
| o_track_start
| o_queue_ended.

Definition perform (o : op) : M unit :=
  match o with
  | o_supported_uris => supported_uris;; ret ()
  | o_clear_list => clear_list
  | o_add_list tracks => add_list tracks
  | o_play repeat => play repeat
  | o_stop => stop;; ret ()
  | o_pause => pause
  | o_resume => resume
  | o_next => next
  | o_previous => previous
  | o_lower_volume => lower_volume
  | o_restore_volume => restore_volume
  | o_track_info => track_info;; ret ()
  | o_seek_forward seconds => seek_forward seconds
  | o_seek_backward seconds => seek_backward seconds
  | o_track_start => track_start
  | o_queue_ended => queue_ended
  end.

(** The states a service can be in, each with the events that led to it.
    Between two operations the engine moves on its own (time passes, a track
    ends, metadata arrives), so its state may be replaced by any other; and
    the host may register or clear the callback. *)
Inductive reachable : list event → VlcService → Prop :=
| reachable_init config vol_msg name :
    reachable [] (__init__ config vol_msg name)
| reachable_perform h s o :
    reachable h s →
    reachable (h ++ trace (perform o s)) (self (perform o s))
| reachable_engine h s i :
    reachable h s →
    reachable h (set_instance i s)
| reachable_register h s f :
    reachable h s →
    reachable h (set_track_start_callback f s).

(** What the host has asked of the service: the operations it performed,
    oldest first, each with the object it was performed on. As in
    [reachable], the engine moves on its own in between and the host may
    register a callback; neither is an operation. *)
Inductive performed : list (op * VlcService) → VlcService → Prop :=
| performed_init config vol_msg name :
    performed [] (__init__ config vol_msg name)
| performed_op h s o :
    performed h s →
    performed (h ++ [(o, s)]) (self (perform o s))
| performed_engine h s i :
    performed h s →
    performed h (set_instance i s)
| performed_register h s f :
    performed h s →
    performed h (set_track_start_callback f s).

Definition is_capture (e : event) : bool :=
  match e with
  | Vlc vlc.c_audio_get_volume => true
  | _ => false
  end.

(** A call of [lower_volume] that took effect: it asked the engine for its
    volume, to capture it. *)
Definition took_effect (c : op * VlcService) : bool :=
  match c.1 with
  | o_lower_volume => existsb is_capture (trace (lower_volume c.2))
  | _ => false
  end.

(** A run of [restore_volume]: the host called it, or it called [stop] on
    a service whose player was playing, where [stop] runs it first. What
    the body of [restore_volume] does has no part in this. *)
Definition restore_ran (c : op * VlcService) : bool :=
  match c.1 with
  | o_restore_volume => true
  | o_stop => vlc.is_playing (instance c.2)
  | _ => false
  end.

(** Whether, after one more operation, a duck has taken effect that no run
    of [restore_volume] has followed. *)
Definition ducked_since_step (pending : bool) (c : op * VlcService) : bool :=
  if restore_ran c then false
  else if took_effect c then true
  else pending.

Definition ducked_since (h : list (op * VlcService)) : bool :=
  foldl ducked_since_step false h.

(** The same read from the events of a run, for the proofs. [lower_volume]
    is the only caller of [audio_get_volume]; every run of
    [restore_volume], also the one inside [stop], starts with its [Enter]
    event. *)
Definition ducking_step (pending : bool) (e : event) : bool :=
  match e with
  | Vlc vlc.c_audio_get_volume => true
  | Enter m_restore_volume => false
  | _ => pending
  end.

(** The events that are neither of the two. *)
Definition neutral (e : event) : bool :=
  match e with
  | Vlc vlc.c_audio_get_volume | Enter m_restore_volume => false
  | _ => true
  end.

(** A computation that, from any state, leaves [normal_volume] alone and
    adds only neutral events. *)
Definition keeps_ducking {A} (m : M A) : Prop :=
  ∀ s, normal_volume (self (m s)) = normal_volume s ∧
       forallb neutral (trace (m s)) = true.

(** The invocations of the host callback in a trace, in order. *)
Definition invocations (tr : list event) : list (nat * option string) :=
  omap (λ e, match e with Callback f arg => Some (f, arg) | _ => None end) tr.

(** What [add_list] is described to add for one entry: the locator itself,
    or the first element of a list, whatever follows it being dropped. *)
Definition first_of (t : track) : list string :=
  match t with
  | t_str uri => [uri]
  | t_list l => take 1 l
  end.

(** The content of the list the service adds to. *)
Definition tracks_of (s : VlcService) : list vlc.Media :=
  vlc.items (track_list s) (instance s).

(** The description of [add_list], as a property of one run: it returns
    normally and has appended, in input order, what [first_of] gives for
    each entry. *)
Definition appends_firsts (tracks : list track) (s : VlcService) : Prop :=
  result (add_list tracks s) = inr () ∧
  tracks_of (self (add_list tracks s)) =
    tracks_of s ++ (vlc.media_new <$> (tracks ≫= first_of)).

Definition has_first (t : track) : bool :=
  match t with
  | t_list [] => false
  | _ => true
  end.

(** ** Loading the service *)

(** One entry of the [backends] mapping. The entry is a single dict, which
    [load_service] reads for its [type] and [active] keys and then hands to
    the service as its configuration; [backend_config] is that same dict seen
    through the keys the service reads. *)
Record Backend := {
  backend_type : option string;
  backend_active : option bool;
  backend_config : Config;
}.

(** [KeyError], raised by [backends[b]['type']] on an entry without the
    key. *)
Inductive key_error := KeyError (key : string).

(** The condition of the comprehension, for one entry: [KeyError] when the
    entry has no [type], else whether it is a ["vlc"] entry that is not
    switched off. *)
Definition selected (entry : Backend) : key_error + bool :=
  match backend_type entry with
  | None => inl (KeyError "type")
  | Some ty => inr (if String.eqb ty "vlc" then get (backend_active entry) true
                    else false)
  end.

(** [[(b, backends[b]) for b in backends if ...]]; [backends] is a dict, so
    its names are distinct and come in insertion order. The first entry
    without a [type] ends the comprehension. *)
Fixpoint services (backends : list (string * Backend)) :
    key_error + list (string * Backend) :=
  match backends with
  | [] => inr []
  | (b, entry) :: backends =>
      match selected entry with
      | inl e => inl e
      | inr keep =>
          match services backends with
          | inl e => inl e
          | inr rest => inr (if keep then (b, entry) :: rest else rest)
          end
      end
  end.

(** [load_service(base_config, bus)]. [base_config] is given by its
    [backends] key ([None] when absent). Each service built asks the bus
    once; [bus k] is the converted reply to the request of the [k]-th
    service built. *)
Definition load_service (base_config : option (list (string * Backend)))
    (bus : nat → option Z) : key_error + list VlcService :=
  let backends := get base_config [] in
  match services backends with
  | inl e => inl e
  | inr services =>
      inr (imap (λ k s, __init__ (backend_config s.2) (bus k) s.1) services)
  end.


(** ** Invariants of the object *)

(** A computation that keeps a property of the object. *)
Definition preserves {A} (P : VlcService → Prop) (m : M A) : Prop :=
  ∀ s, P s → P (self (m s)).

(** What the constructor fixes for the life of the service. *)
Definition settings (s : VlcService) : Config * string * Z * Z * Z :=
  (config s, name s, low_volume s, initial_volume s, volume s).

(** The list player plays the list the service adds to. *)
Definition shares_list (s : VlcService) : Prop :=
  vlc.media_list (vlc.list_player (instance s)) = Some (track_list s).

(** The states a service is in when only its operations act on the lists:
    between two of them the engine may do to the player what it likes, but
    it installs no other list and the host does not reach into the
    object. *)
Inductive operated : VlcService → Prop :=
| operated_init config vol_msg name :
    operated (__init__ config vol_msg name)
| operated_perform s o :
    operated s →
    operated (self (perform o s))
| operated_player s p :
    operated s →
    operated (set_instance (vlc.with_player (λ _, p) (instance s)) s)
| operated_register s f :
    operated s →
    operated (set_track_start_callback f s).

(** The object after the three steps that end a [stop] on a playing
    service: a new list made and taken as track list, that list given to
    the list player, the list player stopped. *)
Definition cleared (s : VlcService) : VlcService :=
  let l := (vlc.media_list_new (instance s)).1 in
  set_instance (vlc.stop (vlc.set_media_list l (vlc.media_list_new (instance s)).2))
    (set_track_list l s).

(** The media [add_list] is to add for a sequence of entries. *)
Definition firsts (tracks : list track) : list vlc.Media :=
  vlc.media_new <$> (tracks ≫= first_of).

(** Everything of the object but the content of the media lists. *)
Definition besides_lists (s : VlcService) :=
  (vlc.player (instance s), vlc.list_player (instance s), track_list s,
   normal_volume s, _track_start_callback s, settings s).

(** ** Two services to try the properties on *)

(** A backend entry that enables ducking and sets the volume; [low_volume]
    is left to its fallback, 30. *)
Definition duck_at (v : Z) : Config :=
  {| cfg_volume := Some v; cfg_low_volume := None; cfg_duck := Some true |}.

(** A service built with [duck_at v] that was given two tracks, the second
    with its MIME type, and told to play: it is playing at volume [v]. *)
Definition playing_at (v : Z) : VlcService :=
  self ((add_list [t_str "file:///a.mp3"; t_list ["http://b/c.mp3"; "audio/mpeg"]];;
         play false) (__init__ (duck_at v) None "vlc")).

(** ** More to try the properties on *)

(** The service [playing_at 80] one minute into a track of three
    minutes. *)
Definition midway : VlcService :=
  set_instance
    (vlc.with_player
       (λ p, {| vlc.state := vlc.Playing; vlc.audio_volume := 80;
                vlc.time := 60000; vlc.duration := 180000;
                vlc.media := vlc.media p |})
       (instance (playing_at 80)))
    (playing_at 80).

(** A [backends] mapping with two entries to load, one entry of another
    type and one that is switched off. *)
Definition four_backends : list (string * Backend) :=
  [("local", {| backend_type := Some "vlc"; backend_active := None;
                backend_config := duck_at 80 |});
   ("simple", {| backend_type := Some "simple"; backend_active := Some true;
                 backend_config := duck_at 50 |});
   ("spare", {| backend_type := Some "vlc"; backend_active := Some false;
                backend_config := duck_at 50 |});
   ("kitchen", {| backend_type := Some "vlc"; backend_active := Some true;
                  backend_config := duck_at 20 |})]%string.

(** The same with an entry that has no [type] and is switched off. *)
Definition broken_backends : list (string * Backend) :=
  four_backends ++
  [("draft", {| backend_type := None; backend_active := Some false;
                backend_config := duck_at 50 |})]%string.

(** ** Properties *)

(** Unfolds the methods down to the operations of the monad. *)
Ltac unfold_methods :=
  unfold perform, stop, restore_volume, lower_volume, seek_forward, seek_backward,
    play, pause, resume, next, previous, clear_list, supported_uris,
    queue_ended, track_start, track_info, add_track,
    media_list_new, media_new, add_media, media_get_meta, invoke,
    player.is_playing, player.audio_get_volume, player.audio_set_volume,
    player.set_pause, player.get_time, player.get_length, player.set_time,
    player.get_media, list_player.set_media_list, list_player.set_playback_mode,
    list_player.play, list_player.stop, list_player.next, list_player.previous,
    ask, act, enter.

(** Runs the monad as far as the state allows, leaving the engine's own
    functions folded. *)
Ltac run :=
  cbn [bind ret gets modify emit raise result self trace app fst snd
       instance track_list config name normal_volume low_volume initial_volume volume
       _track_start_callback set_instance set_track_list set_normal_volume
       set_track_start_callback].

(** C3. On a service whose player is not playing, [stop] returns [False]
    and changes nothing: the object is the one it was (so the track list,
    the engine volume, [normal_volume] and the list player are untouched),
    and the only call made to the engine is the question [is_playing]. *)
Theorem stop_not_playing (s : VlcService) :
  vlc.is_playing (instance s) = false →
  result (stop s) = inr false ∧
  self (stop s) = s ∧
  trace (stop s) = [Enter m_stop; Vlc vlc.c_is_playing].
Proof.
  intros Hidle. unfold_methods. run. rewrite Hidle. run. done.
Qed.

(** *** The engine *)

Lemma is_playing_state (i : vlc.Instance) :
  vlc.is_playing i = true ↔ vlc.state (vlc.player i) = vlc.Playing.
Proof. unfold vlc.is_playing. destruct (vlc.state _); split; congruence. Qed.

Lemma set_pause_playing (i : vlc.Instance) :
  vlc.is_playing i = true → vlc.set_pause 0 i = i.
Proof.
  intros H%is_playing_state. destruct i as [? ? [] ?]; simpl in *.
  by subst.
Qed.

Lemma pause_then_resume (i : vlc.Instance) :
  vlc.is_playing i = true → vlc.set_pause 0 (vlc.set_pause 1 i) = i.
Proof.
  intros H%is_playing_state. destruct i as [? ? [] ?]; simpl in *.
  by subst.
Qed.

Lemma set_pause_paused (i : vlc.Instance) :
  vlc.is_playing i = true →
  vlc.state (vlc.player (vlc.set_pause 1 i)) = vlc.Paused.
Proof.
  intros H%is_playing_state. unfold vlc.set_pause, vlc.with_player; simpl.
  by rewrite H.
Qed.

Lemma set_pause_resumes (i : vlc.Instance) :
  vlc.state (vlc.player i) = vlc.Paused → vlc.is_playing (vlc.set_pause 0 i) = true.
Proof.
  intros H. unfold vlc.is_playing, vlc.set_pause, vlc.with_player; simpl.
  by rewrite H.
Qed.

Lemma set_pause_volume (do_pause : Z) (i : vlc.Instance) :
  vlc.audio_get_volume (vlc.set_pause do_pause i) = vlc.audio_get_volume i.
Proof.
  unfold vlc.audio_get_volume, vlc.set_pause, vlc.with_player.
  cbn [vlc.player]. destruct (vlc.state (vlc.player i)), (do_pause =? 0); reflexivity.
Qed.

Lemma set_volume_read (v : Z) (i : vlc.Instance) :
  vlc.audio_get_volume (vlc.audio_set_volume v i) =
    if v <? 0 then vlc.audio_get_volume i else v.
Proof. unfold vlc.audio_set_volume. destruct (v <? 0); reflexivity. Qed.

Lemma set_time_read (t : Z) (i : vlc.Instance) :
  vlc.get_time (vlc.set_time t i) = t.
Proof. reflexivity. Qed.

(** *** What one run of a method does *)

(** Sequencing after a run that returned. *)
Lemma bind_returned {A B} (m : M A) (f : A → M B) s a s' tr :
  m s = Outcome (inr a) s' tr →
  bind m f s = Outcome (result (f a s')) (self (f a s')) (tr ++ trace (f a s')).
Proof. intros Hm. unfold bind. rewrite Hm. by destruct (f a s'). Qed.

Lemma lower_volume_ducked (s : VlcService) (v : Z) :
  normal_volume s = Some v →
  lower_volume s = Outcome (inr ()) s [Enter m_lower_volume].
Proof. intros Hnv. unfold_methods. run. rewrite Hnv. by run. Qed.

Lemma lower_volume_not_playing (s : VlcService) :
  normal_volume s = None →
  vlc.is_playing (instance s) = false →
  lower_volume s = Outcome (inr ()) s [Enter m_lower_volume; Vlc vlc.c_is_playing].
Proof.
  intros Hnv Hidle. unfold_methods. run. rewrite Hnv. run. rewrite Hidle. by run.
Qed.

Lemma lower_volume_disabled (s : VlcService) :
  normal_volume s = None →
  get (cfg_duck (config s)) false = false →
  lower_volume s = Outcome (inr ()) s [Enter m_lower_volume; Vlc vlc.c_is_playing].
Proof.
  intros Hnv Hoff. unfold_methods. run. rewrite Hnv. run.
  destruct (vlc.is_playing (instance s)); run; [|done]. rewrite Hoff. by run.
Qed.

Lemma restore_volume_restores (s : VlcService) (v : Z) :
  normal_volume s = Some v → v ≠ 0 → low_volume s < v →
  restore_volume s =
    Outcome (inr ())
      (set_normal_volume None (set_instance (vlc.audio_set_volume v (instance s)) s))
      [Enter m_restore_volume; Vlc (vlc.c_audio_set_volume v)].
Proof.
  intros Hnv Hv Hlow. unfold_methods. run. rewrite Hnv. unfold truthy.
  destruct (Z.eqb_spec v 0); [done|]. destruct (Z.gtb_spec v (low_volume s)); [|lia].
  by run.
Qed.

Lemma restore_volume_resumes (s : VlcService) :
  truthy (normal_volume s) = false ∨
    (∃ v, normal_volume s = Some v ∧ v ≤ low_volume s) →
  restore_volume s =
    Outcome (inr ())
      (set_instance (vlc.set_pause 0 (instance s)) (set_normal_volume None s))
      [Enter m_restore_volume; Enter m_resume; Vlc (vlc.c_set_pause 0)].
Proof.
  intros Hnv. unfold_methods. run. destruct (normal_volume s) as [v|]; [|by run].
  destruct Hnv as [->|(? & [= <-] & Hle)]; [by run|].
  destruct (Z.gtb_spec v (low_volume s)); [lia|]. rewrite andb_false_r. by run.
Qed.

(** Python takes a [normal_volume] of [0] for false: a captured level of 0
    is never restored, also when [low_volume] is negative and 0 exceeds it;
    [restore_volume] resumes instead. *)
Lemma restore_volume_zero (s : VlcService) :
  normal_volume s = Some 0 →
  restore_volume s =
    Outcome (inr ())
      (set_instance (vlc.set_pause 0 (instance s)) (set_normal_volume None s))
      [Enter m_restore_volume; Enter m_resume; Vlc (vlc.c_set_pause 0)].
Proof. intros Hnv. apply restore_volume_resumes. left. by rewrite Hnv. Qed.

Section Ducking.

(** A service that is playing, with ducking enabled and not ducked yet. *)
Variable s : VlcService.
Hypothesis duck_enabled : get (cfg_duck (config s)) false = true.
Hypothesis playing : vlc.is_playing (instance s) = true.
Hypothesis not_ducked : normal_volume s = None.

Let V := vlc.audio_get_volume (instance s).

Lemma lower_volume_pauses :
  V < low_volume s →
  lower_volume s =
    Outcome (inr ())
      (set_instance (vlc.set_pause 1 (instance s)) (set_normal_volume (Some V) s))
      [Enter m_lower_volume; Vlc vlc.c_is_playing; Vlc vlc.c_audio_get_volume;
       Enter m_pause; Vlc (vlc.c_set_pause 1)].
Proof using All.
  intros Hlow. unfold_methods. run. rewrite not_ducked. run. rewrite playing. run.
  rewrite duck_enabled. run. fold V. destruct (Z.ltb_spec V (low_volume s)); [|lia].
  by run.
Qed.

Lemma lower_volume_lowers :
  low_volume s ≤ V →
  lower_volume s =
    Outcome (inr ())
      (set_instance (vlc.audio_set_volume (low_volume s) (instance s))
         (set_normal_volume (Some V) s))
      [Enter m_lower_volume; Vlc vlc.c_is_playing; Vlc vlc.c_audio_get_volume;
       Vlc (vlc.c_audio_set_volume (low_volume s))].
Proof using All.
  intros Hlow. unfold_methods. run. rewrite not_ducked. run. rewrite playing. run.
  rewrite duck_enabled. run. fold V. destruct (Z.ltb_spec V (low_volume s)); [lia|].
  by run.
Qed.

End Ducking.

(** *** Ducking and restoring *)

(** C1. With ducking enabled, the player playing and [normal_volume] at
    [None], for every engine volume [V] that is at least [low_volume]:
    [lower_volume] followed by [restore_volume] leaves the engine volume at
    [V] and [normal_volume] at [None]. (That the engine refuses a negative
    level is used in one case only: [V = 0] with a negative [low_volume],
    where the captured 0 counts as false and nothing sets the level back.) *)
Theorem duck_restore_round_trip (s : VlcService) (V : Z) :
  get (cfg_duck (config s)) false = true →
  vlc.is_playing (instance s) = true →
  normal_volume s = None →
  vlc.audio_get_volume (instance s) = V →
  low_volume s ≤ V →
  let o := (lower_volume;; restore_volume) s in
  result o = inr () ∧
  vlc.audio_get_volume (instance (self o)) = V ∧
  normal_volume (self o) = None.
Proof.
  intros Hduck Hplaying Hnv HV Hlow o. subst o.
  rewrite (bind_returned _ _ _ _ _ _
             (lower_volume_lowers s Hduck Hplaying Hnv ltac:(lia))).
  rewrite HV.
  set (s1 := set_instance _ _).
  destruct (decide (V ≠ 0 ∧ low_volume s < V)) as [[H0 Hlt]|Hother].
  - rewrite (restore_volume_restores s1 V) by done. run.
    subst s1. run. rewrite !set_volume_read.
    repeat split. destruct (Z.ltb_spec V 0); [|done].
    destruct (Z.ltb_spec (low_volume s) 0); [done|lia].
  - rewrite (restore_volume_resumes s1).
    + run. subst s1. run. rewrite set_pause_volume, set_volume_read.
      repeat split. destruct (Z.ltb_spec (low_volume s) 0); [done|lia].
    + destruct (decide (V = 0)) as [->|]; [by left|].
      right. exists V. split; [done|]. subst s1. run. lia.
Qed.

(** C4. With ducking enabled, the player playing and [normal_volume] at
    [None], for every engine volume [V] strictly below [low_volume]:
    [lower_volume] pauses the player and leaves the engine volume alone,
    and [normal_volume] becomes [V]; [restore_volume] after it resumes the
    player, again without a call that sets the volume, and the service is
    back in the state it started from. *)
Theorem duck_below_low_volume (s : VlcService) (V : Z) :
  get (cfg_duck (config s)) false = true →
  vlc.is_playing (instance s) = true →
  normal_volume s = None →
  vlc.audio_get_volume (instance s) = V →
  V < low_volume s →
  let ducked := lower_volume s in
  let restored := restore_volume (self ducked) in
  (trace ducked =
     [Enter m_lower_volume; Vlc vlc.c_is_playing; Vlc vlc.c_audio_get_volume;
      Enter m_pause; Vlc (vlc.c_set_pause 1)] ∧
   vlc.state (vlc.player (instance (self ducked))) = vlc.Paused ∧
   vlc.audio_get_volume (instance (self ducked)) = V ∧
   normal_volume (self ducked) = Some V) ∧
  (trace restored = [Enter m_restore_volume; Enter m_resume; Vlc (vlc.c_set_pause 0)] ∧
   vlc.is_playing (instance (self restored)) = true ∧
   vlc.audio_get_volume (instance (self restored)) = V ∧
   normal_volume (self restored) = None ∧
   self restored = s).
Proof.
  intros Hduck Hplaying Hnv HV Hlow ducked restored. subst ducked restored.
  rewrite (lower_volume_pauses s Hduck Hplaying Hnv ltac:(lia)). run.
  rewrite HV. split.
  - rewrite set_pause_volume. by rewrite set_pause_paused.
  - rewrite restore_volume_resumes by (right; exists V; run; split; [done|lia]).
    run. rewrite pause_then_resume by done.
    repeat split; try done. destruct s; simpl in *. by subst.
Qed.

(** C10. After [lower_volume] has taken the pause path (ducking enabled,
    playing, not ducked, engine volume below [low_volume]), the player is
    paused and [normal_volume] is set; [stop] then returns [False] and
    leaves the whole object, so the track list, the list player and
    [normal_volume], as it was: it asks [is_playing], is told no, and does
    nothing else. *)
Theorem stop_after_pause_path (s : VlcService) (V : Z) :
  get (cfg_duck (config s)) false = true →
  vlc.is_playing (instance s) = true →
  normal_volume s = None →
  vlc.audio_get_volume (instance s) = V →
  V < low_volume s →
  let paused := self (lower_volume s) in
  (vlc.state (vlc.player (instance paused)) = vlc.Paused ∧
   normal_volume paused = Some V) ∧
  result (stop paused) = inr false ∧
  self (stop paused) = paused ∧
  trace (stop paused) = [Enter m_stop; Vlc vlc.c_is_playing].
Proof.
  intros Hduck Hplaying Hnv HV Hlow paused. subst paused.
  rewrite (lower_volume_pauses s Hduck Hplaying Hnv ltac:(lia)). run.
  pose proof (set_pause_paused _ Hplaying) as Hpaused.
  split; [by rewrite HV|].
  unfold_methods. run. unfold vlc.is_playing at 1 2 3. rewrite Hpaused. by run.
Qed.

(** C5. Whenever [normal_volume] is [None] or does not exceed
    [low_volume], [restore_volume] sets [normal_volume] to [None], calls
    [resume] (which unpauses a paused player) and makes no call that sets
    the volume: the engine volume is what it was. A service that was never
    ducked has [normal_volume] at [None], so there [resume] is called
    whatever the state of the player. *)
Theorem restore_volume_otherwise (s : VlcService) :
  normal_volume s = None ∨ (∃ v, normal_volume s = Some v ∧ v ≤ low_volume s) →
  let o := restore_volume s in
  result o = inr () ∧
  normal_volume (self o) = None ∧
  trace o = [Enter m_restore_volume; Enter m_resume; Vlc (vlc.c_set_pause 0)] ∧
  instance (self o) = vlc.set_pause 0 (instance s) ∧
  vlc.audio_get_volume (instance (self o)) = vlc.audio_get_volume (instance s) ∧
  (vlc.state (vlc.player (instance s)) = vlc.Paused →
   vlc.is_playing (instance (self o)) = true).
Proof.
  intros Hnv o. subst o. rewrite restore_volume_resumes.
  - run. rewrite set_pause_volume. repeat split. apply set_pause_resumes.
  - destruct Hnv as [->|?]; [by left|by right].
Qed.

(** C6. Calling [lower_volume] twice in a row leaves the object, engine
    included, as calling it once does; and a call made while
    [normal_volume] is set or while ducking is disabled changes nothing. *)
Theorem lower_volume_twice (s : VlcService) :
  (result ((lower_volume;; lower_volume) s) = result (lower_volume s) ∧
   self ((lower_volume;; lower_volume) s) = self (lower_volume s)) ∧
  (normal_volume s ≠ None ∨ get (cfg_duck (config s)) false = false →
   self (lower_volume s) = s).
Proof.
  assert (Hnoop : normal_volume s ≠ None ∨ get (cfg_duck (config s)) false = false ∨
                  vlc.is_playing (instance s) = false →
                  ∃ tr, lower_volume s = Outcome (inr ()) s tr).
  { intros H. destruct (normal_volume s) as [v|] eqn:Hnv.
    - eexists. by apply lower_volume_ducked with v.
    - destruct H as [?|[Hoff|Hidle]]; [done| |]; eexists.
      + by apply lower_volume_disabled.
      + by apply lower_volume_not_playing. }
  split; [|intros H; destruct Hnoop as [tr ->]; [tauto|done]].
  destruct (normal_volume s) as [v|] eqn:Hnv;
    [|destruct (get (cfg_duck (config s)) false) eqn:Hduck;
      [destruct (vlc.is_playing (instance s)) eqn:Hplaying|]].
  - destruct Hnoop as [tr Hrun]; [by left|].
    rewrite (bind_returned _ _ _ _ _ _ Hrun), Hrun. by run.
  - set (V := vlc.audio_get_volume (instance s)).
    destruct (Z.lt_ge_cases V (low_volume s)) as [Hlow|Hlow].
    + pose proof (lower_volume_pauses s Hduck Hplaying Hnv Hlow) as Hrun.
      rewrite (bind_returned _ _ _ _ _ _ Hrun), Hrun.
      by rewrite (lower_volume_ducked _ V).
    + pose proof (lower_volume_lowers s Hduck Hplaying Hnv Hlow) as Hrun.
      rewrite (bind_returned _ _ _ _ _ _ Hrun), Hrun.
      by rewrite (lower_volume_ducked _ V).
  - destruct Hnoop as [tr Hrun]; [by right; right|].
    rewrite (bind_returned _ _ _ _ _ _ Hrun), Hrun. by run.
  - destruct Hnoop as [tr Hrun]; [by right; left|].
    rewrite (bind_returned _ _ _ _ _ _ Hrun), Hrun. by run.
Qed.

(** *** Seeking *)

(** C2. With the player at position [P] of a track of length [D],
    [seek_forward S] asks the engine to go to [min (P + S*1000) D] and
    [seek_backward S] to [max (P - S*1000) 0]; that is the one call either
    makes that changes the engine, and the position it leaves. *)
Theorem seek_clamping (s : VlcService) (S : Z) :
  let P := vlc.get_time (instance s) in
  let D := vlc.get_length (instance s) in
  (trace (seek_forward S s) =
     [Enter m_seek_forward; Vlc vlc.c_get_time; Vlc vlc.c_get_length;
      Vlc (vlc.c_set_time (Z.min (P + S * 1000) D))] ∧
   vlc.get_time (instance (self (seek_forward S s))) = Z.min (P + S * 1000) D) ∧
  (trace (seek_backward S s) =
     [Enter m_seek_backward; Vlc vlc.c_get_time;
      Vlc (vlc.c_set_time (Z.max (P - S * 1000) 0))] ∧
   vlc.get_time (instance (self (seek_backward S s))) = Z.max (P - S * 1000) 0).
Proof.
  intros P D. unfold_methods. run. fold P D. rewrite !set_time_read.
  replace (if P + S * 1000 >? D then D else P + S * 1000)
    with (Z.min (P + S * 1000) D)
    by (destruct (Z.gtb_spec (P + S * 1000) D); lia).
  replace (if P - S * 1000 <? 0 then 0 else P - S * 1000)
    with (Z.max (P - S * 1000) 0)
    by (destruct (Z.ltb_spec (P - S * 1000) 0); lia).
  done.
Qed.

(** *** The event relay *)

(** C7. One "queue ended" event invokes the registered callback exactly
    once, with [None]; with no callback registered it invokes nothing. In
    neither case is the engine called or the object changed. *)
Theorem queue_ended_relay (s : VlcService) :
  invocations (trace (queue_ended s)) =
    match _track_start_callback s with
    | Some f => [(f, None)]
    | None => []
    end ∧
  trace (queue_ended s) =
    Enter m_queue_ended ::
    match _track_start_callback s with
    | Some f => [Callback f None]
    | None => []
    end ∧
  self (queue_ended s) = s.
Proof.
  unfold_methods. run. by destruct (_track_start_callback s); run.
Qed.

(** *** Queueing *)

Lemma first_of_has_first (t : track) :
  has_first t = true → ∃ u, first_of t = [u].
Proof. destruct t as [uri|[|t0 l]]; [by exists uri|done|by exists t0]. Qed.

Lemma add_track_run (t : track) (u : string) (s : VlcService) :
  first_of t = [u] →
  add_track t s =
    Outcome (inr ())
      (set_instance (vlc.add_media (track_list s) (vlc.media_new u) (instance s)) s)
      [Vlc (vlc.c_media_new u); Vlc (vlc.c_add_media (track_list s) u)].
Proof.
  intros Hu. unfold_methods.
  destruct t as [uri|[|t0 l]]; simplify_eq/=; by run.
Qed.

Lemma add_track_empty_list (s : VlcService) :
  add_track (t_list []) s = Outcome (inl IndexError) s [].
Proof. reflexivity. Qed.

Lemma tracks_of_add_media (m : vlc.Media) (s : VlcService) :
  tracks_of (set_instance (vlc.add_media (track_list s) m (instance s)) s) =
    tracks_of s ++ [m].
Proof.
  unfold tracks_of, vlc.items, vlc.add_media. run. cbn [vlc.lists].
  by rewrite lookup_insert_eq.
Qed.

Lemma for_each_add_track (tracks : list track) (s : VlcService) :
  forallb has_first tracks = true →
  result (for_each add_track tracks s) = inr () ∧
  track_list (self (for_each add_track tracks s)) = track_list s ∧
  tracks_of (self (for_each add_track tracks s)) =
    tracks_of s ++ (vlc.media_new <$> (tracks ≫= first_of)).
Proof.
  revert s. induction tracks as [|t tracks IH]; intros s Hall.
  - cbn. by rewrite app_nil_r.
  - cbn [forallb] in Hall. apply andb_true_iff in Hall as [Ht Hall].
    destruct (first_of_has_first t Ht) as [u Hu].
    cbn [for_each]. rewrite (bind_returned _ _ _ _ _ _ (add_track_run t u s Hu)).
    run. destruct (IH (set_instance
                         (vlc.add_media (track_list s) (vlc.media_new u) (instance s)) s)
                     Hall) as (Hres & Hlist & Htracks).
    split; [done|]. split; [done|].
    rewrite Htracks, tracks_of_add_media, bind_cons, Hu, fmap_app.
    by rewrite <- app_assoc.
Qed.

(** C9, amended. For every input sequence in which each entry that is a
    list has at least one element, [add_list] returns normally and has
    appended to the current track list, in input order, one media per entry:
    for a locator the locator, for a list (of any length from one up) its
    first element, what follows it being dropped. *)
Theorem add_list_appends_firsts (tracks : list track) (s : VlcService) :
  forallb has_first tracks = true →
  appends_firsts tracks s.
Proof.
  intros Hall. unfold appends_firsts, add_list, enter.
  destruct (for_each_add_track tracks s Hall) as (Hres & _ & Htracks).
  unfold bind. cbn [emit]. destruct (for_each add_track tracks s) as [r s' tr].
  run. cbn [result self] in *. by subst.
Qed.

(** C9, as stated, fails on an entry that is a list of length zero:
    [t[0]] raises [IndexError], the run ends there, and the entries after
    it are never added. *)
Lemma add_list_empty_entry :
  ¬ appends_firsts [t_str "a"; t_list []; t_str "b"] (playing_at 80).
Proof. intros [Hres _]. vm_compute in Hres. discriminate. Qed.

(** What the run of [add_list_empty_entry] does instead: it adds ["a"] to
    the two tracks queued before, and raises. *)
Lemma add_list_empty_entry_raises :
  let o := add_list [t_str "a"; t_list []; t_str "b"] (playing_at 80) in
  result o = inl IndexError ∧
  vlc.mrl <$> tracks_of (self o) = ["file:///a.mp3"; "http://b/c.mp3"; "a"]%string.
Proof. by vm_compute. Qed.

(** *** The ducking invariant *)

Lemma foldl_neutral (b : bool) (tr : list event) :
  forallb neutral tr = true → foldl ducking_step b tr = b.
Proof.
  revert b. induction tr as [|e tr IH]; intros b Hall; [done|].
  cbn [forallb] in Hall. apply andb_true_iff in Hall as [He Hall].
  cbn [foldl]. rewrite IH by done. by destruct e as [[]|[]|].
Qed.

Section Keeps.

Context {A B : Type}.

Lemma keeps_ret (a : A) : keeps_ducking (ret a).
Proof. done. Qed.

Lemma keeps_gets (f : VlcService → A) : keeps_ducking (gets f).
Proof. done. Qed.

Lemma keeps_raise (e : exn) : keeps_ducking (raise (A:=A) e).
Proof. done. Qed.

Lemma keeps_emit (e : event) : neutral e = true → keeps_ducking (emit e).
Proof. intros He s. cbn. by rewrite He. Qed.

Lemma keeps_modify (f : VlcService → VlcService) :
  (∀ s, normal_volume (f s) = normal_volume s) → keeps_ducking (modify f).
Proof. intros Hf s. by split; [apply Hf|]. Qed.

Lemma keeps_bind (m : M A) (f : A → M B) :
  keeps_ducking m → (∀ a, keeps_ducking (f a)) → keeps_ducking (bind m f).
Proof.
  intros Hm Hf s. unfold bind. destruct (Hm s) as [Hnv Htr].
  destruct (m s) as [[e|a] s' tr]; [done|]. cbn [self trace] in *.
  destruct (Hf a s') as [Hnv' Htr']. destruct (f a s') as [r s'' tr'].
  cbn [self trace] in *. split; [congruence|].
  rewrite forallb_app. by rewrite Htr, Htr'.
Qed.

End Keeps.

(** Takes a computation apart along its sequencing and its tests. *)
Ltac keeps :=
  repeat first
    [ apply keeps_bind; [|intros ?]
    | apply keeps_ret
    | apply keeps_gets
    | apply keeps_raise
    | apply keeps_emit; reflexivity
    | apply keeps_modify; reflexivity
    | progress cbv beta zeta
    | match goal with
      | |- keeps_ducking (match ?x with _ => _ end) => destruct x
      end ].

Lemma keeps_for_each {T} (body : T → M unit) (xs : list T) :
  (∀ x, keeps_ducking (body x)) → keeps_ducking (for_each body xs).
Proof. intros Hbody. induction xs; cbn [for_each]; keeps; done. Qed.

(** All operations but [lower_volume], [restore_volume] and [stop]. *)
Lemma keeps_clear_list : keeps_ducking clear_list.
Proof. unfold_methods. keeps. Qed.

Lemma keeps_others (o : op) :
  o ≠ o_lower_volume → o ≠ o_restore_volume → o ≠ o_stop →
  keeps_ducking (perform o).
Proof.
  destruct o; try done; intros _ _ _; cbn [perform];
    try (unfold add_list; apply keeps_bind; [by apply keeps_emit|intros _];
         apply keeps_for_each; intros t);
    unfold_methods; keeps.
Qed.

(** [restore_volume] always returns, clears [normal_volume], and after its
    own [Enter] adds only neutral events. *)
Lemma restore_volume_clears (s : VlcService) :
  ∃ s' tr, restore_volume s = Outcome (inr ()) s' (Enter m_restore_volume :: tr) ∧
           normal_volume s' = None ∧ forallb neutral tr = true.
Proof.
  unfold_methods. run.
  destruct (normal_volume s) as [v|]; [destruct (truthy _ && _)|]; run;
    by eexists _, _.
Qed.

Lemma lower_volume_ducking (s : VlcService) (b : bool) :
  (normal_volume s ≠ None ↔ b = true) →
  (normal_volume (self (lower_volume s)) ≠ None ↔
   foldl ducking_step b (trace (lower_volume s)) = true).
Proof.
  intros Hinv. destruct (normal_volume s) as [v|] eqn:Hnv.
  { rewrite (lower_volume_ducked s v Hnv). cbn. by rewrite Hnv. }
  destruct (vlc.is_playing (instance s)) eqn:Hplaying.
  2: { rewrite (lower_volume_not_playing s Hnv Hplaying). cbn. by rewrite Hnv. }
  destruct (get (cfg_duck (config s)) false) eqn:Hduck.
  2: { rewrite (lower_volume_disabled s Hnv Hduck). cbn. by rewrite Hnv. }
  destruct (Z.lt_ge_cases (vlc.audio_get_volume (instance s)) (low_volume s)).
  - rewrite (lower_volume_pauses s Hduck Hplaying Hnv) by done. by cbn.
  - rewrite (lower_volume_lowers s Hduck Hplaying Hnv) by done. by cbn.
Qed.

Lemma restore_volume_ducking (s : VlcService) (b : bool) :
  normal_volume (self (restore_volume s)) ≠ None ↔
  foldl ducking_step b (trace (restore_volume s)) = true.
Proof.
  destruct (restore_volume_clears s) as (s' & tr & -> & Hnv & Htr).
  cbn [self trace foldl ducking_step]. rewrite foldl_neutral by done.
  by rewrite Hnv.
Qed.

Lemma stop_ducking (s : VlcService) (b : bool) :
  (normal_volume s ≠ None ↔ b = true) →
  (normal_volume (self (stop s)) ≠ None ↔
   foldl ducking_step b (trace (stop s)) = true).
Proof.
  intros Hinv. unfold stop, player.is_playing, ask, enter. run.
  destruct (vlc.is_playing (instance s)); run; [|done].
  destruct (restore_volume_clears s) as (s' & tr & Hrun & Hnv & Htr).
  rewrite (bind_returned _ _ _ _ _ _ Hrun). run.
  assert (Hrest : keeps_ducking (clear_list;; list_player.stop;; ret true)).
  { unfold_methods. keeps. }
  destruct (Hrest s') as [Hnv' Htr']. rewrite Hnv', Hnv.
  cbn [foldl ducking_step]. rewrite foldl_app, !foldl_neutral by done. done.
Qed.

(** One operation keeps [normal_volume] in step with the events it adds. *)
Lemma perform_ducking (o : op) (s : VlcService) (b : bool) :
  (normal_volume s ≠ None ↔ b = true) →
  (normal_volume (self (perform o s)) ≠ None ↔
   foldl ducking_step b (trace (perform o s)) = true).
Proof.
  intros Hinv.
  destruct o;
    try (match goal with
         | |- context [perform ?o s] =>
             assert (Hkeeps : keeps_ducking (perform o)) by (by apply keeps_others)
         end;
         destruct (Hkeeps s) as [-> Htr]; by rewrite foldl_neutral).
  - cbn [perform]. pose proof (stop_ducking s b Hinv) as Hstop.
    unfold bind. destruct (stop s) as [[e|r] s' tr]; [done|].
    cbn [self trace ret] in *. by rewrite ?app_nil_r.
  - by apply lower_volume_ducking.
  - by apply restore_volume_ducking.
Qed.

Lemma stop_trace_ducking (s : VlcService) (b : bool) :
  foldl ducking_step b (trace (stop s)) =
    if vlc.is_playing (instance s) then false else b.
Proof.
  unfold stop, player.is_playing, ask, enter. run.
  destruct (vlc.is_playing (instance s)); run; [|done].
  destruct (restore_volume_clears s) as (s' & tr & Hrun & Hnv & Htr).
  rewrite (bind_returned _ _ _ _ _ _ Hrun). run.
  assert (Hrest : keeps_ducking (clear_list;; list_player.stop;; ret true)).
  { unfold_methods. keeps. }
  destruct (Hrest s') as [_ Htr'].
  cbn [foldl ducking_step]. by rewrite foldl_app, !foldl_neutral.
Qed.

Lemma lower_volume_trace_ducking (s : VlcService) (b : bool) :
  foldl ducking_step b (trace (lower_volume s)) =
    if existsb is_capture (trace (lower_volume s)) then true else b.
Proof.
  destruct (normal_volume s) as [v|] eqn:Hnv.
  { by rewrite (lower_volume_ducked s v Hnv). }
  destruct (vlc.is_playing (instance s)) eqn:Hplaying.
  2: { by rewrite (lower_volume_not_playing s Hnv Hplaying). }
  destruct (get (cfg_duck (config s)) false) eqn:Hduck.
  2: { by rewrite (lower_volume_disabled s Hnv Hduck). }
  destruct (Z.lt_ge_cases (vlc.audio_get_volume (instance s)) (low_volume s)).
  - by rewrite (lower_volume_pauses s Hduck Hplaying Hnv).
  - by rewrite (lower_volume_lowers s Hduck Hplaying Hnv).
Qed.

(** When a call of [lower_volume] takes effect: exactly when the service
    is not ducked, its player is playing and ducking is enabled. *)
Lemma took_effect_iff (s : VlcService) :
  took_effect (o_lower_volume, s) = true ↔
  normal_volume s = None ∧ vlc.is_playing (instance s) = true ∧
  get (cfg_duck (config s)) false = true.
Proof.
  unfold took_effect. cbn [fst snd].
  destruct (normal_volume s) as [v|] eqn:Hnv.
  { rewrite (lower_volume_ducked s v Hnv). cbn. naive_solver. }
  destruct (vlc.is_playing (instance s)) eqn:Hplaying.
  2: { rewrite (lower_volume_not_playing s Hnv Hplaying). cbn. naive_solver. }
  destruct (get (cfg_duck (config s)) false) eqn:Hduck.
  2: { rewrite (lower_volume_disabled s Hnv Hduck). cbn. naive_solver. }
  destruct (Z.lt_ge_cases (vlc.audio_get_volume (instance s)) (low_volume s)).
  - by rewrite (lower_volume_pauses s Hduck Hplaying Hnv).
  - by rewrite (lower_volume_lowers s Hduck Hplaying Hnv).
Qed.

(** The events of one operation say what the operation and the object it
    was performed on say. *)
Lemma ducked_since_trace (o : op) (s : VlcService) (b : bool) :
  foldl ducking_step b (trace (perform o s)) = ducked_since_step b (o, s).
Proof.
  unfold ducked_since_step, restore_ran, took_effect. cbn [fst snd].
  destruct o;
    try (match goal with
         | |- context [perform ?o s] =>
             assert (Hkeeps : keeps_ducking (perform o)) by (by apply keeps_others)
         end;
         destruct (Hkeeps s) as [_ Htr]; by rewrite foldl_neutral).
  - cbn [perform]. pose proof (stop_trace_ducking s b) as Hstop.
    unfold bind. destruct (stop s) as [[e|r] s' tr]; [done|].
    cbn [trace ret] in *. by rewrite ?app_nil_r.
  - cbn [perform]. apply lower_volume_trace_ducking.
  - cbn [perform]. destruct (restore_volume_clears s) as (s' & tr & -> & _ & Htr).
    cbn [trace foldl ducking_step]. by rewrite foldl_neutral.
Qed.

(** C8. In every state reached from a fresh service by the operations of
    the interface (with the engine moving freely in between),
    [normal_volume] is set exactly when, among the operations performed so
    far, a [lower_volume] took effect (it captured the engine volume) and
    no [restore_volume] has run after it, called by the host or by [stop]
    on a playing service. *)
Theorem normal_volume_iff_ducked_since (h : list (op * VlcService))
    (s : VlcService) :
  performed h s →
  (normal_volume s ≠ None ↔ ducked_since h = true).
Proof.
  induction 1 as [config vol_msg name|h s o _ IH|h s i _ IH|h s f _ IH].
  - unfold __init__. cbn. naive_solver.
  - unfold ducked_since. rewrite foldl_app. cbn [foldl].
    rewrite <- ducked_since_trace. by apply perform_ducking.
  - done.
  - done.
Qed.

(** ** Further properties of the methods *)

(** *** More of the engine *)

Lemma is_playing_set_volume (v : Z) (i : vlc.Instance) :
  vlc.is_playing (vlc.audio_set_volume v i) = vlc.is_playing i.
Proof. unfold vlc.audio_set_volume. by destruct (v <? 0). Qed.

Lemma player_set_volume (v : Z) (i : vlc.Instance) :
  vlc.state (vlc.player (vlc.audio_set_volume v i)) = vlc.state (vlc.player i).
Proof. unfold vlc.audio_set_volume. by destruct (v <? 0). Qed.

Lemma lists_set_volume (v : Z) (i : vlc.Instance) :
  vlc.lists (vlc.audio_set_volume v i) = vlc.lists i.
Proof. unfold vlc.audio_set_volume. by destruct (v <? 0). Qed.

Lemma list_player_set_volume (v : Z) (i : vlc.Instance) :
  vlc.list_player (vlc.audio_set_volume v i) = vlc.list_player i.
Proof. unfold vlc.audio_set_volume. by destruct (v <? 0). Qed.

Lemma list_player_play_item (n : nat) (i : vlc.Instance) :
  vlc.media_list (vlc.list_player (vlc.play_item n i)) =
    vlc.media_list (vlc.list_player i) ∧
  vlc.playback_mode (vlc.list_player (vlc.play_item n i)) =
    vlc.playback_mode (vlc.list_player i) ∧
  vlc.lists (vlc.play_item n i) = vlc.lists i ∧
  vlc.audio_get_volume (vlc.play_item n i) = vlc.audio_get_volume i.
Proof. unfold vlc.play_item. by destruct (vlc.queue i !! n). Qed.

Lemma list_player_play (i : vlc.Instance) :
  vlc.media_list (vlc.list_player (vlc.play i)) =
    vlc.media_list (vlc.list_player i) ∧
  vlc.playback_mode (vlc.list_player (vlc.play i)) =
    vlc.playback_mode (vlc.list_player i) ∧
  vlc.lists (vlc.play i) = vlc.lists i ∧
  vlc.audio_get_volume (vlc.play i) = vlc.audio_get_volume i.
Proof.
  unfold vlc.play.
  destruct (vlc.state (vlc.player i)), (vlc.index (vlc.list_player i));
    first [apply list_player_play_item | by rewrite set_pause_volume].
Qed.

Lemma list_player_next (i : vlc.Instance) :
  vlc.media_list (vlc.list_player (vlc.next i)) =
    vlc.media_list (vlc.list_player i) ∧
  vlc.lists (vlc.next i) = vlc.lists i.
Proof.
  unfold vlc.next.
  destruct (vlc.queue i !! _), (vlc.playback_mode (vlc.list_player i));
    first [done | split; apply list_player_play_item].
Qed.

Lemma list_player_previous (i : vlc.Instance) :
  vlc.media_list (vlc.list_player (vlc.previous i)) =
    vlc.media_list (vlc.list_player i) ∧
  vlc.lists (vlc.previous i) = vlc.lists i.
Proof.
  unfold vlc.previous.
  destruct (vlc.index (vlc.list_player i)) as [[|n]|],
           (vlc.playback_mode (vlc.list_player i));
    first [done | split; apply list_player_play_item].
Qed.

(** *** Stopping *)

Lemma stop_idle_run (s : VlcService) :
  vlc.is_playing (instance s) = false →
  stop s = Outcome (inr false) s [Enter m_stop; Vlc vlc.c_is_playing].
Proof. intros Hidle. unfold_methods. run. rewrite Hidle. by run. Qed.

Lemma stop_playing_run (s s1 : VlcService) (tr1 : list event) :
  vlc.is_playing (instance s) = true →
  restore_volume s = Outcome (inr ()) s1 tr1 →
  stop s =
    Outcome (inr true) (cleared s1)
      (Enter m_stop :: Vlc vlc.c_is_playing :: tr1 ++
       [Enter m_clear_list; Vlc vlc.c_media_list_new;
        Vlc (vlc.c_set_media_list (vlc.media_list_new (instance s1)).1);
        Vlc vlc.c_stop]).
Proof.
  intros Hplaying Hrestore. unfold stop, player.is_playing, ask, enter. run.
  rewrite Hplaying. run. rewrite (bind_returned _ _ _ _ _ _ Hrestore).
  unfold clear_list, media_list_new, list_player.set_media_list, list_player.stop,
    act, enter. by run.
Qed.

Lemma cleared_facts (s : VlcService) :
  normal_volume (cleared s) = normal_volume s ∧
  tracks_of (cleared s) = [] ∧
  vlc.queue (instance (cleared s)) = [] ∧
  shares_list (cleared s) ∧
  vlc.is_playing (instance (cleared s)) = false ∧
  vlc.audio_get_volume (instance (cleared s)) = vlc.audio_get_volume (instance s) ∧
  settings (cleared s) = settings s.
Proof.
  unfold cleared, tracks_of, shares_list, vlc.queue, vlc.items, vlc.stop,
    vlc.set_media_list, vlc.media_list_new, vlc.with_player, vlc.with_list_player.
  run. cbn [vlc.lists vlc.list_player vlc.media_list fst snd].
  by rewrite lookup_insert_eq.
Qed.

(** X1. On a playing service [stop] returns [True]; afterwards
    [normal_volume] is [None], the track list is a new, empty list that the
    list player has been given too, and the player is no longer playing. *)
Theorem stop_when_playing (s : VlcService) :
  vlc.is_playing (instance s) = true →
  let o := stop s in
  result o = inr true ∧
  normal_volume (self o) = None ∧
  tracks_of (self o) = [] ∧
  vlc.queue (instance (self o)) = [] ∧
  vlc.is_playing (instance (self o)) = false.
Proof.
  intros Hplaying o. subst o.
  destruct (restore_volume_clears s) as (s1 & tr1 & Hrestore & Hnv & _).
  rewrite (stop_playing_run s s1 _ Hplaying Hrestore). run.
  destruct (cleared_facts s1) as (-> & -> & -> & _ & -> & _). by rewrite Hnv.
Qed.

(** X2. A second [stop] right after a first returns [False] and changes
    nothing, whatever the first one did. *)
Theorem stop_twice (s : VlcService) :
  result ((stop;; stop) s) = inr false ∧
  self ((stop;; stop) s) = self (stop s).
Proof.
  destruct (vlc.is_playing (instance s)) eqn:Hplaying.
  - destruct (restore_volume_clears s) as (s1 & tr1 & Hrestore & _).
    pose proof (stop_playing_run s s1 _ Hplaying Hrestore) as Hstop.
    rewrite (bind_returned _ _ _ _ _ _ Hstop), Hstop.
    rewrite stop_idle_run by apply cleared_facts. by run.
  - pose proof (stop_idle_run s Hplaying) as Hstop.
    rewrite (bind_returned _ _ _ _ _ _ Hstop), Hstop. by run.
Qed.

Lemma restore_after_lowering (s : VlcService) (V : Z) :
  vlc.audio_get_volume (instance s) = V →
  low_volume s ≤ V →
  ∃ s2 tr,
    restore_volume
      (set_instance (vlc.audio_set_volume (low_volume s) (instance s))
         (set_normal_volume (Some V) s)) = Outcome (inr ()) s2 tr ∧
    vlc.audio_get_volume (instance s2) = V ∧
    normal_volume s2 = None.
Proof.
  intros HV Hlow. set (s1 := set_instance _ _).
  destruct (decide (V ≠ 0 ∧ low_volume s < V)) as [[H0 Hlt]|Hother].
  - eexists _, _. split; [by apply (restore_volume_restores s1 V)|].
    subst s1. run. rewrite !set_volume_read. split; [|done].
    destruct (Z.ltb_spec V 0); [|done].
    destruct (Z.ltb_spec (low_volume s) 0); [done|lia].
  - eexists _, _. split.
    + apply (restore_volume_resumes s1).
      destruct (decide (V = 0)) as [->|]; [by left|].
      right. exists V. split; [done|]. subst s1. run. lia.
    + subst s1. run. rewrite set_pause_volume, set_volume_read. split; [|done].
      destruct (Z.ltb_spec (low_volume s) 0); [done|lia].
Qed.

(** X3. A service ducked by lowering the volume (ducking enabled, playing,
    not ducked, engine volume [V] at least [low_volume]) and then stopped
    gets its volume back: after [lower_volume] and [stop], [stop] has
    returned [True], the engine volume is [V] again, [normal_volume] is
    [None] and the track list is empty. *)
Theorem duck_then_stop (s : VlcService) (V : Z) :
  get (cfg_duck (config s)) false = true →
  vlc.is_playing (instance s) = true →
  normal_volume s = None →
  vlc.audio_get_volume (instance s) = V →
  low_volume s ≤ V →
  let o := (lower_volume;; stop) s in
  result o = inr true ∧
  vlc.audio_get_volume (instance (self o)) = V ∧
  normal_volume (self o) = None ∧
  tracks_of (self o) = [].
Proof.
  intros Hduck Hplaying Hnv HV Hlow o. subst o.
  rewrite (bind_returned _ _ _ _ _ _
             (lower_volume_lowers s Hduck Hplaying Hnv ltac:(lia))).
  rewrite HV.
  destruct (restore_after_lowering s V HV Hlow) as (s2 & tr & Hrestore & HV2 & Hnv2).
  rewrite (stop_playing_run _ s2 tr) by (run; by rewrite ?is_playing_set_volume).
  run. destruct (cleared_facts s2) as (-> & -> & _ & _ & _ & -> & _). done.
Qed.

Lemma pause_run (s : VlcService) :
  pause s =
    Outcome (inr ()) (set_instance (vlc.set_pause 1 (instance s)) s)
      [Enter m_pause; Vlc (vlc.c_set_pause 1)].
Proof. reflexivity. Qed.

(** X4. A paused player cannot be stopped: after [pause] on a playing
    service, [stop] returns [False], the queue stays as it was, and the
    player stays paused. *)
Theorem stop_after_pause (s : VlcService) :
  vlc.is_playing (instance s) = true →
  let o := (pause;; stop) s in
  result o = inr false ∧
  self o = self (pause s) ∧
  tracks_of (self o) = tracks_of s ∧
  vlc.state (vlc.player (instance (self o))) = vlc.Paused.
Proof.
  intros Hplaying o. subst o.
  rewrite (bind_returned _ _ _ _ _ _ (pause_run s)), pause_run.
  pose proof (set_pause_paused _ Hplaying) as Hpaused.
  rewrite stop_idle_run by (run; unfold vlc.is_playing; by rewrite Hpaused).
  by run.
Qed.

(** *** Properties kept along a computation *)

Section Preserves.

Context {A B : Type} (P : VlcService → Prop).

Lemma preserves_ret (a : A) : preserves P (ret a).
Proof. by intros s. Qed.

Lemma preserves_gets (f : VlcService → A) : preserves P (gets f).
Proof. by intros s. Qed.

Lemma preserves_raise (e : exn) : preserves P (raise (A:=A) e).
Proof. by intros s. Qed.

Lemma preserves_emit (e : event) : preserves P (emit e).
Proof. by intros s. Qed.

Lemma preserves_modify (f : VlcService → VlcService) :
  (∀ s, P s → P (f s)) → preserves P (modify f).
Proof. intros Hf s. apply Hf. Qed.

Lemma preserves_bind (m : M A) (f : A → M B) :
  preserves P m → (∀ a, preserves P (f a)) → preserves P (bind m f).
Proof.
  intros Hm Hf s HP. unfold bind. specialize (Hm s HP).
  destruct (m s) as [[e|a] s' tr]; [done|]. cbn [self] in Hm.
  specialize (Hf a s' Hm). by destruct (f a s').
Qed.

End Preserves.

Lemma preserves_for_each {T} (P : VlcService → Prop) (body : T → M unit)
    (xs : list T) :
  (∀ x, preserves P (body x)) → preserves P (for_each body xs).
Proof.
  intros Hbody. induction xs; cbn [for_each];
    [apply preserves_ret|by apply preserves_bind].
Qed.

(** Takes a computation apart along its sequencing and its tests; [tac]
    is for the steps that change the object. *)
Ltac preserving tac :=
  repeat first
    [ apply preserves_bind; [|intros ?]
    | apply preserves_ret
    | apply preserves_gets
    | apply preserves_raise
    | apply preserves_emit
    | apply preserves_for_each; intros ?
    | apply preserves_modify; tac
    | progress cbv beta zeta
    | match goal with
      | |- preserves _ (match ?x with _ => _ end) => destruct x
      end ].

Lemma perform_preserves_settings (o : op) (x : Config * string * Z * Z * Z) :
  preserves (λ s, settings s = x) (perform o).
Proof.
  destruct o; cbn [perform]; unfold add_list; unfold_methods;
    preserving ltac:(by intros ? ?).
Qed.

(** X5. No operation of the interface changes what the constructor set:
    the configuration, the name, [low_volume], [initial_volume] and
    [volume] are after any operation what they were before it. *)
Theorem perform_keeps_settings (o : op) (s : VlcService) :
  settings (self (perform o s)) = settings s.
Proof. by apply (perform_preserves_settings o (settings s)). Qed.

(** X6. In every state the service can reach, [low_volume] is the
    configured [low_volume], or 30 when there is none, and [volume] is the
    configured [volume], or else the volume taken from the bus at
    construction. *)
Theorem settings_from_config (h : list event) (s : VlcService) :
  reachable h s →
  low_volume s = get (cfg_low_volume (config s)) 30 ∧
  volume s = get (cfg_volume (config s)) (initial_volume s).
Proof.
  assert (Hsettings : ∀ s s' : VlcService, settings s' = settings s →
            low_volume s = get (cfg_low_volume (config s)) 30 ∧
            volume s = get (cfg_volume (config s)) (initial_volume s) →
            low_volume s' = get (cfg_low_volume (config s')) 30 ∧
            volume s' = get (cfg_volume (config s')) (initial_volume s')).
  { intros s1 s2 [= -> _ -> -> ->]. done. }
  induction 1 as [config vol_msg name|h s o _ IH|h s i _ IH|h s f _ IH].
  - done.
  - by apply (Hsettings s), IH; [apply (perform_preserves_settings o (settings s))].
  - done.
  - done.
Qed.

(** *** The queue *)

Lemma for_each_add_track_raises (pre post : list track) (s : VlcService) :
  forallb has_first pre = true →
  result (for_each add_track (pre ++ t_list [] :: post) s) = inl IndexError ∧
  tracks_of (self (for_each add_track (pre ++ t_list [] :: post) s)) =
    tracks_of s ++ firsts pre.
Proof.
  revert s. induction pre as [|t pre IH]; intros s Hall.
  - cbn [app for_each]. unfold bind. rewrite add_track_empty_list.
    cbn [result self]. by rewrite app_nil_r.
  - cbn [forallb] in Hall. apply andb_true_iff in Hall as [Ht Hall].
    destruct (first_of_has_first t Ht) as [u Hu]. cbn [app for_each].
    rewrite (bind_returned _ _ _ _ _ _ (add_track_run t u s Hu)). run.
    destruct (IH (set_instance
                    (vlc.add_media (track_list s) (vlc.media_new u) (instance s)) s)
                Hall) as (Hres & Htracks).
    split; [done|]. rewrite Htracks, tracks_of_add_media. unfold firsts.
    rewrite bind_cons, Hu, fmap_app. by rewrite <- app_assoc.
Qed.

(** X7. When the sequence given to [add_list] has an entry that is an
    empty list, the entries before the first such entry are added, then
    [IndexError] is raised, and nothing after it is added. *)
Theorem add_list_raises_at_empty_entry (pre post : list track) (s : VlcService) :
  forallb has_first pre = true →
  let o := add_list (pre ++ t_list [] :: post) s in
  result o = inl IndexError ∧
  tracks_of (self o) = tracks_of s ++ firsts pre.
Proof.
  intros Hall o. subst o. unfold add_list, enter, bind. cbn [emit].
  destruct (for_each_add_track_raises pre post s Hall) as (Hres & Htracks).
  destruct (for_each add_track _ s) as [r s' tr]. cbn [result self] in *.
  by subst.
Qed.

(** X8. [add_list] changes the content of a media list and nothing else:
    the player (its state, volume, position, media), the list player, the
    track list the service points to, [normal_volume], the callback and
    the settings are as before, whether it returns or raises. *)
Theorem add_list_besides_lists (tracks : list track) (s : VlcService) :
  besides_lists (self (add_list tracks s)) = besides_lists s.
Proof.
  assert (Hkeeps : preserves (λ s', besides_lists s' = besides_lists s)
                     (add_list tracks)).
  { unfold add_list; unfold_methods. preserving ltac:(by intros ? ?). }
  by apply Hkeeps.
Qed.

Lemma add_list_appends_firsts_aux (tracks : list track) (s : VlcService) :
  forallb has_first tracks = true →
  result (add_list tracks s) = inr () ∧
  tracks_of (self (add_list tracks s)) = tracks_of s ++ firsts tracks.
Proof.
  intros Hall. unfold add_list, enter.
  destruct (for_each_add_track tracks s Hall) as (Hres & _ & Htracks).
  unfold bind. cbn [emit]. destruct (for_each add_track tracks s) as [r s' tr].
  run. cbn [result self] in *. by subst.
Qed.

Lemma clear_list_run (s : VlcService) :
  let l := (vlc.media_list_new (instance s)).1 in
  clear_list s =
    Outcome (inr ())
      (set_instance (vlc.set_media_list l (vlc.media_list_new (instance s)).2)
         (set_track_list l s))
      [Enter m_clear_list; Vlc vlc.c_media_list_new; Vlc (vlc.c_set_media_list l)].
Proof. reflexivity. Qed.

Lemma preserves_shares_clear_list : preserves shares_list clear_list.
Proof. intros s _. by rewrite clear_list_run. Qed.

(** A call that acts on the engine without installing a list. *)
Lemma preserves_shares_act (c : vlc.call) (f : vlc.Instance → vlc.Instance) :
  (∀ i, vlc.media_list (vlc.list_player (f i)) =
        vlc.media_list (vlc.list_player i)) →
  preserves shares_list (act c f).
Proof.
  intros Hf. unfold act. apply preserves_bind; [apply preserves_emit|intros _].
  apply preserves_modify. intros s Hs. unfold shares_list in *. run.
  by rewrite Hf.
Qed.

Ltac sharing :=
  repeat first
    [ apply preserves_shares_clear_list
    | apply preserves_shares_act; intros ?;
        first [ reflexivity
              | apply list_player_play
              | apply list_player_next
              | apply list_player_previous
              | by rewrite list_player_set_volume ]
    | apply preserves_bind; [|intros ?]
    | apply preserves_ret
    | apply preserves_gets
    | apply preserves_raise
    | apply preserves_emit
    | apply preserves_for_each; intros ?
    | apply preserves_modify; by intros ? ?
    | progress cbv beta zeta
    | match goal with
      | |- preserves _ (match ?x with _ => _ end) => destruct x
      end ].

Lemma perform_shares (o : op) : preserves shares_list (perform o).
Proof.
  destruct o; cbn [perform];
    unfold stop, restore_volume, lower_volume, seek_forward, seek_backward,
      play, pause, resume, next, previous, supported_uris, add_list,
      queue_ended, track_start, track_info, add_track,
      media_new, add_media, media_get_meta, invoke,
      player.is_playing, player.audio_get_volume, player.audio_set_volume,
      player.set_pause, player.get_time, player.get_length, player.set_time,
      player.get_media, list_player.set_playback_mode,
      list_player.play, list_player.stop, list_player.next, list_player.previous,
      ask, enter;
    sharing.
Qed.

(** X9. As long as only the operations of the service act on the lists,
    the list player plays the very list the service adds to: the queue of
    the list player is the content of the track list. *)
Theorem queue_is_track_list (s : VlcService) :
  operated s →
  vlc.queue (instance s) = tracks_of s.
Proof.
  intros Hop. assert (Hshares : shares_list s).
  { induction Hop as [config vol_msg name|s o _ IH|s p _ IH|s f _ IH].
    - done.
    - by apply perform_shares.
    - done.
    - done. }
  unfold vlc.queue, tracks_of. by rewrite Hshares.
Qed.

(** X10. [clear_list] followed by [add_list], on any service: when every
    entry that is a list has a first element, the track list and the queue
    of the list player afterwards hold exactly the media of the new
    entries, in order; nothing of the old queue is left. *)
Theorem clear_then_add (tracks : list track) (s : VlcService) :
  forallb has_first tracks = true →
  let o := (clear_list;; add_list tracks) s in
  result o = inr () ∧
  tracks_of (self o) = firsts tracks ∧
  vlc.queue (instance (self o)) = firsts tracks.
Proof.
  intros Hall o. subst o.
  rewrite (bind_returned _ _ _ _ _ _ (clear_list_run s)).
  set (s1 := set_instance _ _).
  assert (Hempty : tracks_of s1 = []).
  { unfold tracks_of, vlc.items. subst s1. run.
    unfold vlc.set_media_list, vlc.media_list_new, vlc.with_list_player.
    cbn [vlc.lists fst snd]. by rewrite lookup_insert_eq. }
  assert (Hshares : shares_list (self (add_list tracks s1))).
  { apply (perform_shares (o_add_list tracks)). by subst s1. }
  destruct (add_list_appends_firsts_aux tracks s1 Hall) as [Hres Htracks].
  run. rewrite Hempty in Htracks. split; [done|]. split; [done|].
  unfold vlc.queue. rewrite Hshares. exact Htracks.
Qed.

(** *** More on ducking *)

(** X11. [lower_volume] never raises the engine volume, and never
    overwrites a level it has captured before. *)
Theorem lower_volume_never_louder (s : VlcService) :
  vlc.audio_get_volume (instance (self (lower_volume s))) ≤
    vlc.audio_get_volume (instance s) ∧
  (∀ v, normal_volume s = Some v → normal_volume (self (lower_volume s)) = Some v).
Proof.
  split; [|by intros v Hv; rewrite (lower_volume_ducked s v Hv)].
  destruct (normal_volume s) as [v|] eqn:Hnv.
  { by rewrite (lower_volume_ducked s v Hnv). }
  destruct (vlc.is_playing (instance s)) eqn:Hplaying.
  2: { by rewrite (lower_volume_not_playing s Hnv Hplaying). }
  destruct (get (cfg_duck (config s)) false) eqn:Hduck.
  2: { by rewrite (lower_volume_disabled s Hnv Hduck). }
  destruct (Z.lt_ge_cases (vlc.audio_get_volume (instance s)) (low_volume s)).
  - rewrite (lower_volume_pauses s Hduck Hplaying Hnv) by done. run.
    by rewrite set_pause_volume.
  - rewrite (lower_volume_lowers s Hduck Hplaying Hnv) by done. run.
    rewrite set_volume_read. destruct (low_volume s <? 0); [done|lia].
Qed.

(** X12. When [normal_volume] holds a positive level above [low_volume],
    [restore_volume] sets the engine volume to it and clears it, with that
    one call to the engine: it does not call [resume], so a player that
    was paused meanwhile stays paused. *)
Theorem restore_volume_sets_level (s : VlcService) (v : Z) :
  normal_volume s = Some v →
  0 < v →
  low_volume s < v →
  let o := restore_volume s in
  trace o = [Enter m_restore_volume; Vlc (vlc.c_audio_set_volume v)] ∧
  vlc.audio_get_volume (instance (self o)) = v ∧
  normal_volume (self o) = None ∧
  vlc.state (vlc.player (instance (self o))) = vlc.state (vlc.player (instance s)).
Proof.
  intros Hnv Hpos Hlow o. subst o.
  rewrite (restore_volume_restores s v) by (done || lia). run.
  rewrite set_volume_read, player_set_volume.
  by destruct (Z.ltb_spec v 0); [lia|].
Qed.

(** X13. A captured level of 0 is not restored, whatever [low_volume] is,
    also a negative one: with [normal_volume] at 0, [restore_volume] calls
    [resume], makes no call that sets the volume, and clears
    [normal_volume]. *)
Theorem restore_volume_skips_zero (s : VlcService) :
  normal_volume s = Some 0 →
  let o := restore_volume s in
  trace o = [Enter m_restore_volume; Enter m_resume; Vlc (vlc.c_set_pause 0)] ∧
  vlc.audio_get_volume (instance (self o)) = vlc.audio_get_volume (instance s) ∧
  normal_volume (self o) = None.
Proof.
  intros Hnv o. subst o.
  rewrite restore_volume_resumes by (left; by rewrite Hnv). run.
  by rewrite set_pause_volume.
Qed.

(** *** Playing *)

(** X14. [play] sets the playback mode to [loop] exactly when [repeat] is
    given, and the engine volume to the [volume] of the service when that
    is not negative. It leaves [normal_volume] as it is: a ducked service
    told to play is at its full volume and still holds the captured
    level. *)
Theorem play_sets_mode_and_volume (repeat : bool) (s : VlcService) :
  0 ≤ volume s →
  let o := play repeat s in
  result o = inr () ∧
  vlc.playback_mode (vlc.list_player (instance (self o))) =
    (if repeat then vlc.PlaybackMode.loop else vlc.PlaybackMode.default) ∧
  vlc.audio_get_volume (instance (self o)) = volume s ∧
  normal_volume (self o) = normal_volume s.
Proof.
  intros Hvol o. subst o. unfold_methods.
  destruct repeat; run; rewrite set_volume_read, list_player_set_volume;
    match goal with
    | |- context [vlc.play ?i] => destruct (list_player_play i) as (_ & -> & _)
    end;
    by destruct (Z.ltb_spec (volume s) 0); [lia|].
Qed.

(** *** Track information and the "track started" event *)

Lemma track_info_run (s : VlcService) :
  track_info s =
    match vlc.get_media (instance s) with
    | Some t =>
        Outcome
          (inr {| info_album := vlc.album t; info_artists := [vlc.artist t];
                  info_name := vlc.title t |})
          s
          [Enter m_track_info; Vlc vlc.c_get_media; Vlc (vlc.c_get_meta vlc.Album);
           Vlc (vlc.c_get_meta vlc.Artist); Vlc (vlc.c_get_meta vlc.Title)]
    | None =>
        Outcome (inl AttributeError) s [Enter m_track_info; Vlc vlc.c_get_media]
    end.
Proof.
  unfold_methods. run. by destruct (vlc.get_media (instance s)) as [t|]; run.
Qed.

(** X15. [track_info] raises [AttributeError] exactly when the player has
    no media; when it returns, [artists] has exactly one entry, the artist
    of the media or [None], next to its album and title. It never changes
    the object. *)
Theorem track_info_result (s : VlcService) :
  match vlc.get_media (instance s) with
  | Some t =>
      result (track_info s) =
        inr {| info_album := vlc.album t; info_artists := [vlc.artist t];
               info_name := vlc.title t |}
  | None => result (track_info s) = inl AttributeError
  end ∧
  (∀ info, result (track_info s) = inr info → length (info_artists info) = 1%nat) ∧
  self (track_info s) = s.
Proof.
  rewrite track_info_run. destruct (vlc.get_media (instance s)) as [t|];
    repeat split; try done. by intros info [= <-].
Qed.

(** X16. One "track started" event: with a callback registered and a media
    loaded, the callback is invoked exactly once, with the title of the
    media; with a callback registered and no media, [AttributeError] is
    raised and the callback is not invoked; with no callback, nothing is
    invoked and the engine is not even asked. The object is never
    changed. *)
Theorem track_start_relay (s : VlcService) :
  match _track_start_callback s, vlc.get_media (instance s) with
  | Some f, Some t =>
      result (track_start s) = inr () ∧
      invocations (trace (track_start s)) = [(f, vlc.title t)]
  | Some f, None =>
      result (track_start s) = inl AttributeError ∧
      invocations (trace (track_start s)) = []
  | None, _ =>
      result (track_start s) = inr () ∧
      trace (track_start s) = [Enter m_track_start]
  end ∧
  self (track_start s) = s.
Proof.
  unfold track_start.
  rewrite (bind_returned (enter m_track_start) _ s () s [Enter m_track_start] eq_refl).
  rewrite (bind_returned (gets _track_start_callback) _ s (_track_start_callback s) s
             [] eq_refl).
  destruct (_track_start_callback s) as [f|]; [|done].
  unfold bind, invoke. rewrite track_info_run.
  by destruct (vlc.get_media (instance s)) as [t|].
Qed.

(** *** More on seeking *)

Lemma set_time_back (t : Z) (i : vlc.Instance) :
  vlc.set_time (vlc.get_time i) (vlc.set_time t i) = i.
Proof. by destruct i as [? ? [] ?]. Qed.

(** X17. Seeking forward and then backward by the same amount brings the
    service back to where it was, when the position is not negative and
    the forward seek stays within the track. *)
Theorem seek_there_and_back (s : VlcService) (S : Z) :
  0 ≤ vlc.get_time (instance s) →
  vlc.get_time (instance s) + S * 1000 ≤ vlc.get_length (instance s) →
  self ((seek_forward S;; seek_backward S) s) = s.
Proof.
  intros Hpos Hfits. unfold_methods. run. rewrite set_time_read.
  set (P := vlc.get_time (instance s)) in *.
  destruct (Z.gtb_spec (P + S * 1000) (vlc.get_length (instance s))); [lia|].
  destruct (Z.ltb_spec (P + S * 1000 - S * 1000) 0); [lia|].
  replace (P + S * 1000 - S * 1000) with P by lia. subst P.
  rewrite set_time_back. by destruct s.
Qed.

(** X18. Each seek clamps on one side only. [seek_forward] with an amount
    that leads below zero asks the engine for that negative position,
    where [seek_backward] with the opposite amount asks for 0; and
    [seek_backward] with an amount that leads beyond the end asks for that
    position, where [seek_forward] with the opposite amount asks for the
    length. *)
Theorem seek_clamps_one_side (s : VlcService) (S : Z) :
  let P := vlc.get_time (instance s) in
  let D := vlc.get_length (instance s) in
  (P + S * 1000 < 0 → P + S * 1000 ≤ D →
   last (trace (seek_forward S s)) = Some (Vlc (vlc.c_set_time (P + S * 1000))) ∧
   last (trace (seek_backward (- S) s)) = Some (Vlc (vlc.c_set_time 0))) ∧
  (D < P - S * 1000 → 0 ≤ P - S * 1000 →
   last (trace (seek_backward S s)) = Some (Vlc (vlc.c_set_time (P - S * 1000))) ∧
   last (trace (seek_forward (- S) s)) = Some (Vlc (vlc.c_set_time D))).
Proof.
  intros P D. unfold_methods. run. fold P D. cbn [last]. split; intros H1 H2.
  - destruct (Z.gtb_spec (P + S * 1000) D); [lia|].
    destruct (Z.ltb_spec (P - - S * 1000) 0); [done|lia].
  - destruct (Z.ltb_spec (P - S * 1000) 0); [lia|].
    destruct (Z.gtb_spec (P + - S * 1000) D); [done|lia].
Qed.

(** *** Loading *)


Lemma services_missing_type (backends : list (string * Backend)) :
  Exists (λ be, backend_type be.2 = None) backends →
  services backends = inl (KeyError "type").
Proof.
  induction 1 as [[b entry] backends Hty|[b entry] backends _ IH];
    cbn [services]; unfold selected; cbn [snd] in *.
  - by rewrite Hty.
  - destruct (backend_type entry); [|done]. by rewrite IH.
Qed.



(** X20. When some entry of [backends] has no [type], [load_service]
    raises [KeyError] and builds no service, whatever the other entries
    are, and also when the entry without [type] is switched off. *)
Theorem load_service_missing_type (backends : list (string * Backend))
    (bus : nat → option Z) :
  Exists (λ be, backend_type be.2 = None) backends →
  load_service (Some backends) bus = inl (KeyError "type").
Proof.
  intros Hmissing. unfold load_service, get. cbv zeta. cbn [default from_option id].
  by rewrite (services_missing_type backends Hmissing).
Qed.

(** ** The properties at work

    Each property that has premises, applied to one of the two services
    above. *)

Lemma duck_restore_round_trip_at_80 :
  let o := (lower_volume;; restore_volume) (playing_at 80) in
  result o = inr () ∧
  vlc.audio_get_volume (instance (self o)) = 80 ∧
  normal_volume (self o) = None.
Proof. apply (duck_restore_round_trip (playing_at 80) 80); by vm_compute. Defined.

Lemma stop_not_playing_fresh :
  let s := __init__ (duck_at 80) None "vlc" in
  result (stop s) = inr false ∧
  self (stop s) = s ∧
  trace (stop s) = [Enter m_stop; Vlc vlc.c_is_playing].
Proof. apply (stop_not_playing (__init__ (duck_at 80) None "vlc")). by vm_compute. Defined.

Lemma duck_below_low_volume_at_20 :
  let ducked := lower_volume (playing_at 20) in
  let restored := restore_volume (self ducked) in
  (trace ducked =
     [Enter m_lower_volume; Vlc vlc.c_is_playing; Vlc vlc.c_audio_get_volume;
      Enter m_pause; Vlc (vlc.c_set_pause 1)] ∧
   vlc.state (vlc.player (instance (self ducked))) = vlc.Paused ∧
   vlc.audio_get_volume (instance (self ducked)) = 20 ∧
   normal_volume (self ducked) = Some 20) ∧
  (trace restored = [Enter m_restore_volume; Enter m_resume; Vlc (vlc.c_set_pause 0)] ∧
   vlc.is_playing (instance (self restored)) = true ∧
   vlc.audio_get_volume (instance (self restored)) = 20 ∧
   normal_volume (self restored) = None ∧
   self restored = playing_at 20).
Proof. apply (duck_below_low_volume (playing_at 20) 20); by vm_compute. Defined.

Lemma stop_after_pause_path_at_20 :
  let paused := self (lower_volume (playing_at 20)) in
  (vlc.state (vlc.player (instance paused)) = vlc.Paused ∧
   normal_volume paused = Some 20) ∧
  result (stop paused) = inr false ∧
  self (stop paused) = paused ∧
  trace (stop paused) = [Enter m_stop; Vlc vlc.c_is_playing].
Proof. apply (stop_after_pause_path (playing_at 20) 20); by vm_compute. Defined.

Lemma restore_volume_otherwise_at_20 :
  let s := self (lower_volume (playing_at 20)) in
  let o := restore_volume s in
  result o = inr () ∧
  normal_volume (self o) = None ∧
  trace o = [Enter m_restore_volume; Enter m_resume; Vlc (vlc.c_set_pause 0)] ∧
  instance (self o) = vlc.set_pause 0 (instance s) ∧
  vlc.audio_get_volume (instance (self o)) = vlc.audio_get_volume (instance s) ∧
  (vlc.state (vlc.player (instance s)) = vlc.Paused →
   vlc.is_playing (instance (self o)) = true).
Proof.
  apply (restore_volume_otherwise (self (lower_volume (playing_at 20)))).
  right. exists 20. by vm_compute.
Defined.

Lemma lower_volume_twice_at_80 :
  (result ((lower_volume;; lower_volume) (playing_at 80)) =
     result (lower_volume (playing_at 80)) ∧
   self ((lower_volume;; lower_volume) (playing_at 80)) =
     self (lower_volume (playing_at 80))) ∧
  self (lower_volume (self (lower_volume (playing_at 80)))) =
    self (lower_volume (playing_at 80)).
Proof.
  split; [apply (lower_volume_twice (playing_at 80))|].
  apply (lower_volume_twice (self (lower_volume (playing_at 80)))).
  left. by vm_compute.
Defined.

Lemma add_list_appends_firsts_of_three :
  appends_firsts [t_str "a"; t_list ["b"; "audio/mpeg"; "x"]; t_list ["c"]]
    (playing_at 80).
Proof. apply add_list_appends_firsts. reflexivity. Defined.

Lemma normal_volume_iff_ducked_since_at_80 :
  let s0 := __init__ (duck_at 80) None "vlc" in
  let s1 := self (perform (o_add_list [t_str "file:///a.mp3"]) s0) in
  let s2 := self (perform (o_play false) s1) in
  let h2 := ([] ++ [(o_add_list [t_str "file:///a.mp3"], s0)]) ++ [(o_play false, s1)] in
  let lowered := self (perform o_lower_volume s2) in
  let restored := self (perform o_restore_volume lowered) in
  let stopped := self (perform o_stop lowered) in
  ((normal_volume lowered ≠ None ↔ ducked_since (h2 ++ [(o_lower_volume, s2)]) = true) ∧
   normal_volume lowered = Some 80 ∧
   ducked_since (h2 ++ [(o_lower_volume, s2)]) = true) ∧
  ((normal_volume restored ≠ None ↔
    ducked_since ((h2 ++ [(o_lower_volume, s2)]) ++ [(o_restore_volume, lowered)]) = true) ∧
   normal_volume restored = None ∧
   ducked_since ((h2 ++ [(o_lower_volume, s2)]) ++ [(o_restore_volume, lowered)]) = false) ∧
  ((normal_volume stopped ≠ None ↔
    ducked_since ((h2 ++ [(o_lower_volume, s2)]) ++ [(o_stop, lowered)]) = true) ∧
   normal_volume stopped = None ∧
   ducked_since ((h2 ++ [(o_lower_volume, s2)]) ++ [(o_stop, lowered)]) = false).
Proof.
  intros s0 s1 s2 h2 lowered restored stopped.
  assert (Hlowered : performed (h2 ++ [(o_lower_volume, s2)]) lowered).
  { subst lowered h2 s2 s1 s0. do 3 apply performed_op. apply performed_init. }
  split; [|split]; (split; [|by vm_compute]).
  - by apply (normal_volume_iff_ducked_since (h2 ++ [(o_lower_volume, s2)]) lowered).
  - apply (normal_volume_iff_ducked_since
             ((h2 ++ [(o_lower_volume, s2)]) ++ [(o_restore_volume, lowered)]) restored).
    subst restored. by apply performed_op.
  - apply (normal_volume_iff_ducked_since
             ((h2 ++ [(o_lower_volume, s2)]) ++ [(o_stop, lowered)]) stopped).
    subst stopped. by apply performed_op.
Defined.

Lemma stop_when_playing_at_80 :
  let o := stop (playing_at 80) in
  result o = inr true ∧
  normal_volume (self o) = None ∧
  tracks_of (self o) = [] ∧
  vlc.queue (instance (self o)) = [] ∧
  vlc.is_playing (instance (self o)) = false.
Proof. apply (stop_when_playing (playing_at 80)). by vm_compute. Defined.

Lemma duck_then_stop_at_80 :
  let o := (lower_volume;; stop) (playing_at 80) in
  result o = inr true ∧
  vlc.audio_get_volume (instance (self o)) = 80 ∧
  normal_volume (self o) = None ∧
  tracks_of (self o) = [].
Proof. apply (duck_then_stop (playing_at 80) 80); by vm_compute. Defined.

Lemma stop_after_pause_at_80 :
  let o := (pause;; stop) (playing_at 80) in
  result o = inr false ∧
  self o = self (pause (playing_at 80)) ∧
  tracks_of (self o) = tracks_of (playing_at 80) ∧
  vlc.state (vlc.player (instance (self o))) = vlc.Paused.
Proof. apply (stop_after_pause (playing_at 80)). by vm_compute. Defined.

Lemma settings_from_config_after_stop :
  let s0 := __init__ (duck_at 80) (Some 65) "vlc" in
  let queued := perform (o_add_list [t_str "file:///a.mp3"]) s0 in
  let started := perform (o_play true) (self queued) in
  let stopped := perform o_stop (self started) in
  low_volume (self stopped) = get (cfg_low_volume (config (self stopped))) 30 ∧
  volume (self stopped) =
    get (cfg_volume (config (self stopped))) (initial_volume (self stopped)).
Proof.
  intros s0 queued started stopped.
  apply (settings_from_config
           ((([] ++ trace queued) ++ trace started) ++ trace stopped)).
  subst stopped started queued s0. do 3 apply reachable_perform.
  apply reachable_init.
Defined.

Lemma add_list_raises_at_empty_entry_second :
  let o := add_list ([t_str "a"] ++ t_list [] :: [t_str "b"]) (playing_at 80) in
  result o = inl IndexError ∧
  tracks_of (self o) = tracks_of (playing_at 80) ++ firsts [t_str "a"].
Proof. apply (add_list_raises_at_empty_entry [t_str "a"] [t_str "b"]). reflexivity. Defined.

Lemma queue_is_track_list_playing :
  let s0 := __init__ (duck_at 80) None "vlc" in
  let queued := perform (o_add_list [t_str "file:///a.mp3"; t_list ["b"; "x"]]) s0 in
  let started := perform (o_play false) (self queued) in
  vlc.queue (instance (self started)) = tracks_of (self started).
Proof.
  intros s0 queued started. apply queue_is_track_list.
  subst started queued s0. do 2 apply operated_perform. apply operated_init.
Defined.

Lemma clear_then_add_two :
  let o := (clear_list;; add_list [t_str "c"; t_list ["d"; "audio/ogg"]])
             (playing_at 80) in
  result o = inr () ∧
  tracks_of (self o) = firsts [t_str "c"; t_list ["d"; "audio/ogg"]] ∧
  vlc.queue (instance (self o)) = firsts [t_str "c"; t_list ["d"; "audio/ogg"]].
Proof.
  apply (clear_then_add [t_str "c"; t_list ["d"; "audio/ogg"]] (playing_at 80)).
  reflexivity.
Defined.

Lemma lower_volume_never_louder_ducked :
  let s := self (lower_volume (playing_at 80)) in
  vlc.audio_get_volume (instance (self (lower_volume s))) ≤
    vlc.audio_get_volume (instance s) ∧
  normal_volume (self (lower_volume s)) = Some 80.
Proof.
  split; [apply (lower_volume_never_louder (self (lower_volume (playing_at 80))))|].
  apply (lower_volume_never_louder (self (lower_volume (playing_at 80)))).
  by vm_compute.
Defined.

Lemma restore_volume_sets_level_80 :
  let s := self (lower_volume (playing_at 80)) in
  let o := restore_volume s in
  trace o = [Enter m_restore_volume; Vlc (vlc.c_audio_set_volume 80)] ∧
  vlc.audio_get_volume (instance (self o)) = 80 ∧
  normal_volume (self o) = None ∧
  vlc.state (vlc.player (instance (self o))) = vlc.state (vlc.player (instance s)).
Proof.
  apply (restore_volume_sets_level (self (lower_volume (playing_at 80))) 80);
    by vm_compute.
Defined.

Lemma restore_volume_skips_zero_at_0 :
  let s := self (lower_volume (playing_at 0)) in
  let o := restore_volume s in
  trace o = [Enter m_restore_volume; Enter m_resume; Vlc (vlc.c_set_pause 0)] ∧
  vlc.audio_get_volume (instance (self o)) = vlc.audio_get_volume (instance s) ∧
  normal_volume (self o) = None.
Proof.
  apply (restore_volume_skips_zero (self (lower_volume (playing_at 0)))).
  by vm_compute.
Defined.

Lemma play_sets_mode_and_volume_ducked :
  let s := self (lower_volume (playing_at 80)) in
  let o := play true s in
  result o = inr () ∧
  vlc.playback_mode (vlc.list_player (instance (self o))) = vlc.PlaybackMode.loop ∧
  vlc.audio_get_volume (instance (self o)) = volume s ∧
  normal_volume (self o) = normal_volume s.
Proof.
  apply (play_sets_mode_and_volume true (self (lower_volume (playing_at 80)))).
  by vm_compute.
Defined.

Lemma seek_there_and_back_midway :
  self ((seek_forward 30;; seek_backward 30) midway) = midway.
Proof. apply (seek_there_and_back midway 30); by vm_compute. Defined.

Lemma seek_clamps_one_side_midway :
  (last (trace (seek_forward (-90) midway)) = Some (Vlc (vlc.c_set_time (-30000))) ∧
   last (trace (seek_backward 90 midway)) = Some (Vlc (vlc.c_set_time 0))) ∧
  (last (trace (seek_backward (-150) midway)) = Some (Vlc (vlc.c_set_time 210000)) ∧
   last (trace (seek_forward 150 midway)) = Some (Vlc (vlc.c_set_time 180000))).
Proof.
  split.
  - apply (seek_clamps_one_side midway (-90)); by vm_compute.
  - apply (seek_clamps_one_side midway (-150)); by vm_compute.
Defined.


Lemma load_service_missing_type_draft :
  load_service (Some broken_backends) (λ _, Some 65) = inl (KeyError "type").
Proof.
  apply (load_service_missing_type broken_backends).
  do 4 apply Exists_cons_tl. by apply Exists_cons_hd.
Defined.
